(** * GeoThinneR: the rounding-hashing thinning engine

    A shallow embedding of [src/rounding_hashing.cpp] and the properties of
    its grid index, of one thinning pass and of the multi-trial selection. *)

From Stdlib Require Import ZArith QArith Ascii String.
From stdpp Require Import gmap strings list fin_maps pretty sorting.

Local Open Scope Z_scope.

(** ** Floating point and the C++ standard library

    The engine computes on IEEE doubles.  Their operations are kept abstract:
    every property below is about the control structure of the engine and
    holds whatever the rounding of the arithmetic is. *)

Class Double := {
  double : Type;
  (** [fdec m e] is the literal [m * 10^e], so [fdec 11132 (-2)] is [111.32]. *)
  fdec : Z → Z → double;
  M_PI : double;
  fadd : double → double → double;
  fsub : double → double → double;
  fmul : double → double → double;
  fdiv : double → double → double;
  fsqrt : double → double;
  fsin : double → double;
  fcos : double → double;
  fatan2 : double → double → double;
  fpow : double → double → double;
  (** [std::round]: to the nearest integral value, halves away from zero. *)
  fround : double → double;
  (** The integer an integral double stands for. *)
  ftrunc : double → Z;
  (** Comparison; [None] when the operands are unordered (a NaN). *)
  fcompare : double → double → option comparison;
}.

Declare Scope double_scope.
Delimit Scope double_scope with D.
Infix "+" := fadd : double_scope.
Infix "-" := fsub : double_scope.
Infix "*" := fmul : double_scope.
Infix "/" := fdiv : double_scope.

(** [a <= b] on doubles: false as soon as one side is a NaN. *)
Definition fle `{Double} (a b : double) : bool :=
  match fcompare a b with
  | Some Lt | Some Eq => true
  | _ => false
  end.

(** [a > b] on doubles. *)
Definition fgt `{Double} (a b : double) : bool :=
  match fcompare a b with
  | Some Gt => true
  | _ => false
  end.

(** [std::mt19937], [std::shuffle] and the enumeration order of
    [std::unordered_map].  The standard fixes none of the three orders; it
    does fix that a shuffle permutes its range and that iterating over a map
    meets every key once.  The engine fills its map from the coordinates in
    index order, so the order of enumeration is taken as a function of the
    content of the map. *)
Class StdLib := {
  mt19937 : Type;
  mt19937_seed : Z → mt19937;
  shuffle : list string → mt19937 → list string * mt19937;
  shuffle_perm : ∀ l g, (shuffle l g).1 ≡ₚ l;
  umap_keys : gmap string (list nat) → list string;
  umap_keys_perm : ∀ m, umap_keys m ≡ₚ (map_to_list m).*1;
}.

(** ** Machine integers *)

(** The value of an [int] expression, on 32 bits: the two's complement
    result, also where C++ leaves the overflow undefined. *)
Definition int_wrap (z : Z) : Z := (z + 2 ^ 31) `mod` 2 ^ 32 - 2 ^ 31.

(** [static_cast<int>(x)]. *)
Definition static_cast_int `{Double} (x : double) : Z := int_wrap (ftrunc x).

(** [std::to_string(int)]. *)
Definition to_string (z : Z) : string := pretty z.

(** No underscore in [s]: what the two numbers of a cell name are made of. *)
Fixpoint plain (s : string) : Prop :=
  match s with
  | EmptyString => True
  | String a s' => a ≠ "_"%char ∧ plain s'
  end.

(** ** Distances *)

Section Distances.
Context `{Double}.
Local Open Scope double_scope.

Definition haversineDistance (lon1 lat1 lon2 lat2 R : double) : double :=
  let dLat := (lat2 - lat1) * M_PI / fdec 180 0 in
  let dLon := (lon2 - lon1) * M_PI / fdec 180 0 in
  let a := fsin (dLat / fdec 2 0) * fsin (dLat / fdec 2 0) +
           fcos (lat1 * M_PI / fdec 180 0) * fcos (lat2 * M_PI / fdec 180 0) *
           fsin (dLon / fdec 2 0) * fsin (dLon / fdec 2 0) in
  let c := fdec 2 0 * fatan2 (fsqrt a) (fsqrt (fdec 1 0 - a)) in
  R * c.

Definition euclideanDistance (lon1 lat1 lon2 lat2 : double) : double :=
  fsqrt (fpow (lon2 - lon1) (fdec 2 0) + fpow (lat2 - lat1) (fdec 2 0)).
End Distances.

(** ** Retention masks *)

(** An [Rcpp::LogicalVector]: one boolean per point. *)
Abbreviation mask := (list bool).

(** [m[i]], read. *)
Definition kept (m : mask) (i : nat) : bool := default false (m !! i).

(** [Rcpp::sum(m)]: how many entries are true. *)
Definition Rcpp_sum (m : mask) : Z := Z.of_nat (length (filter (λ b, b = true) m)).

(** [m'] keeps no point that [m] has dropped, and has the length of [m]. *)
Definition shrinks (m' m : mask) : Prop :=
  length m' = length m ∧ ∀ i, kept m' i = true → kept m i = true.

(** ** The grid *)

Section Grid.
Context `{Double}.
Variable coordinates : list (double * double).
Variable thin_dist : double.

Definition nrow : nat := length coordinates.

(** [coordinates(i, 0)] and [coordinates(i, 1)], for a row [i] of the
    matrix; the engine reads no other row. *)
Definition lon (i : nat) : double :=
  match coordinates !! i with Some p => p.1 | None => fdec 0 0 end.
Definition lat (i : nat) : double :=
  match coordinates !! i with Some p => p.2 | None => fdec 0 0 end.

Definition precision : double := (thin_dist / fdec 11132 (-2))%D.

Definition grid_lon (i : nat) : Z := static_cast_int (fround (lon i / precision)%D).
Definition grid_lat (i : nat) : Z := static_cast_int (fround (lat i / precision)%D).

Definition cell_name (glon glat : Z) : string :=
  to_string glon +:+ "_" +:+ to_string glat.

Definition grid_cell (i : nat) : string := cell_name (grid_lon i) (grid_lat i).

(** [grid[k].push_back(i)]: [operator[]] makes the bucket when it is new. *)
Definition push_back (cells : gmap string (list nat)) (k : string) (i : nat)
  : gmap string (list nat) :=
  <[k := default [] (cells !! k) ++ [i]]> cells.

(** The loop that populates the grid, over [i = 0 .. n-1]. *)
Definition populate (n : nat) : gmap string (list nat) :=
  foldl (λ cells i, push_back cells (grid_cell i) i) ∅ (seq 0 n).

Definition grid : gmap string (list nat) := populate nrow.

(** The points of [0 .. k-1] that fall in cell [c], in increasing order. *)
Definition bucket (k : nat) (c : string) : list nat :=
  filter (λ i, grid_cell i = c) (seq 0 k).
End Grid.

(** ** One thinning pass and the selection over trials *)

(** The source has no [throw] and no call to [Rcpp::stop]: the error below
    is never raised.  It is there to state what rejecting an argument
    would be. *)
Inductive error := InvalidArgument.

(** What a call does: it hands back a list of masks, or it raises. *)
Inductive outcome :=
  | Returns (masks : list mask)
  | Raises (e : error).

(** The variables of the trial loop.  Rcpp vectors are handles on R objects:
    [heap] holds the logical vectors allocated so far, and [keep_points],
    [all_keep_points] hold positions in it. *)
Record state `{StdLib} := State {
  heap : list mask;
  keep_points : nat;
  best_size : Z;
  all_keep_points : list nat;
  g : mt19937;
}.

Section Engine.
Context `{Double} `{StdLib}.
Variable coordinates : list (double * double).
Variable thin_dist : double.
Variable distance_metric : string.
Variable R : double.

Local Abbreviation n := (nrow coordinates).
Local Abbreviation grid := (grid coordinates thin_dist).
Local Abbreviation lon := (lon coordinates).
Local Abbreviation lat := (lat coordinates).

(** The distance of point 2 from point 1, under the metric of the call. *)
Definition distance (point1_idx point2_idx : nat) : double :=
  if String.eqb distance_metric "haversine"
  then haversineDistance (lon point1_idx) (lat point1_idx)
                         (lon point2_idx) (lat point2_idx) R
  else euclideanDistance (lon point1_idx) (lat point1_idx)
                         (lon point2_idx) (lat point2_idx).

(** The body of the innermost loop, for one [point2_idx]. *)
Definition check_point (point1_idx : nat) (m : mask) (point2_idx : nat) : mask :=
  if bool_decide (point2_idx ≠ point1_idx) && kept m point2_idx then
    if fle (distance point1_idx point2_idx) thin_dist
    then <[point2_idx := false]> m
    else m
  else m.

Definition neighbor_cell (point1_idx : nat) (lat_offset lon_offset : Z) : string :=
  let neighbor_lon := int_wrap (grid_lon coordinates thin_dist point1_idx + lon_offset) in
  let neighbor_lat := int_wrap (grid_lat coordinates thin_dist point1_idx + lat_offset) in
  cell_name neighbor_lon neighbor_lat.

(** [if (grid.find(c) != grid.end()) for (point2_idx : grid[c]) ...]. *)
Definition check_cell (point1_idx : nat) (m : mask) (c : string) : mask :=
  match grid !! c with
  | Some points => foldl (check_point point1_idx) m points
  | None => m
  end.

Definition offsets : list Z := [-1; 0; 1].

(** The nine cells around a point, [lat_offset] in the outer loop. *)
Definition neighbor_cells (point1_idx : nat) : list string :=
  lat_offset ← offsets; lon_offset ← offsets;
  [neighbor_cell point1_idx lat_offset lon_offset].

(** The body of the loop over the points of a cell. *)
Definition thin_point (m : mask) (point1_idx : nat) : mask :=
  if kept m point1_idx
  then foldl (check_cell point1_idx) m (neighbor_cells point1_idx)
  else m.

(** [points = grid[grid_cell]], then the loop over [points]. *)
Definition thin_cell (m : mask) (grid_cell : string) : mask :=
  foldl thin_point m (default [] (grid !! grid_cell)).

(** One pass over the cells in the order given. *)
Definition trial_pass (grid_cells : list string) (m : mask) : mask :=
  foldl thin_cell m grid_cells.

(** The shuffled cells of the trial that starts in [st]. *)
Definition trial_cells (st : state) : list string :=
  (shuffle (umap_keys grid) (g st)).1.

(** The vector [trial_keep_points] at the end of that trial's pass. *)
Definition trial_mask (st : state) : mask :=
  trial_pass (trial_cells st) (heap st !!! keep_points st).

(** [current_size > best_size]. *)
Definition improves (st : state) : bool :=
  best_size st <? Rcpp_sum (trial_mask st).

(** One iteration of the loop over trials.  The copy constructor of
    [Rcpp::LogicalVector] shares the R object: [trial_keep_points] is the
    handle [keep_points], and the pass writes through it.  The assignment
    [keep_points = trial_keep_points] and [push_back] store the handle. *)
Definition trial (all_trials : bool) (st : state) : state :=
  let trial_keep_points := keep_points st in
  {| heap := <[trial_keep_points := trial_mask st]> (heap st);
     keep_points := if improves st then trial_keep_points else keep_points st;
     best_size := if improves st then Rcpp_sum (trial_mask st) else best_size st;
     all_keep_points :=
       if all_trials then all_keep_points st ++ [trial_keep_points]
       else all_keep_points st;
     g := (shuffle (umap_keys grid) (g st)).2 |}.

(** The state before the first trial. *)
Definition init (seed : Z) : state :=
  {| heap := [replicate n true];
     keep_points := 0%nat;
     best_size := 0;
     all_keep_points := [];
     g := mt19937_seed seed |}.

(** The state after [t] trials. *)
Definition after (all_trials : bool) (seed : Z) (t : nat) : state :=
  Nat.iter t (trial all_trials) (init seed).

(** *** The same loop with a deep copy

    Had [trial_keep_points] been an [Rcpp::clone] of [keep_points], each
    trial would work on a vector of its own.  This reading is kept beside
    the code's to show that the sharing cannot be seen from outside. *)

Definition trial_cloned (all_trials : bool) (st : state) : state :=
  let trial_keep_points := length (heap st) in
  {| heap := heap st ++ [trial_mask st];
     keep_points := if improves st then trial_keep_points else keep_points st;
     best_size := if improves st then Rcpp_sum (trial_mask st) else best_size st;
     all_keep_points :=
       if all_trials then all_keep_points st ++ [trial_keep_points]
       else all_keep_points st;
     g := (shuffle (umap_keys grid) (g st)).2 |}.

(** *** Notions used to state the properties *)

(** [p2] lies in one of the nine cells around [p1]. *)
Definition near (p1 p2 : nat) : Prop :=
  ∃ c points, c ∈ neighbor_cells p1 ∧ grid !! c = Some points ∧ p2 ∈ points.

(** [p1], when it scans, drops [p2]. *)
Definition drops (p1 p2 : nat) : Prop :=
  p2 ≠ p1 ∧ near p1 p2 ∧ fle (distance p1 p2) thin_dist = true.

(** No kept point has a kept point to drop. *)
Definition settled (m : mask) : Prop :=
  ∀ p1 p2, kept m p1 = true → drops p1 p2 → kept m p2 = false.

(** The mask of the first trial: one pass from the all-kept mask, over the
    first shuffle of the generator seeded with [seed]. *)
Definition first_trial (seed : Z) : mask :=
  trial_pass (shuffle (umap_keys grid) (mt19937_seed seed)).1 (replicate n true).

(** From the first trial on, the one vector of the heap holds the mask of
    the first trial, and [best_size] its count. *)
Definition steady (all_trials : bool) (seed : Z) (t : nat) (st : state) : Prop :=
  heap st = [first_trial seed] ∧ keep_points st = 0%nat ∧
  best_size st = Rcpp_sum (first_trial seed) ∧
  all_keep_points st = (if all_trials then replicate t 0%nat else []).

(** The same for the loop with a deep copy, where the vectors pile up. *)
Definition steady_cloned (all_trials : bool) (seed : Z) (t : nat) (st : state)
  : Prop :=
  (keep_points st < length (heap st))%nat ∧
  heap st !!! keep_points st = first_trial seed ∧
  best_size st = Rcpp_sum (first_trial seed) ∧
  length (all_keep_points st) = (if all_trials then t else 0%nat) ∧
  Forall (λ h, (h < length (heap st))%nat ∧ heap st !!! h = first_trial seed)
         (all_keep_points st).
End Engine.

(** The entry point, its arguments in the order of the source: the trials
    are run, then the vectors behind [all_keep_points], or the one behind
    [keep_points], are handed back. *)
Definition rounding_hashing_thinning `{Double} `{StdLib}
    (coordinates : list (double * double)) (thin_dist : double) (trials : Z)
    (all_trials : bool) (distance_metric : string) (R : double) (seed : Z)
  : outcome :=
  let st := after coordinates thin_dist distance_metric R all_trials seed
              (Z.to_nat trials) in
  if all_trials
  then Returns ((λ h, heap st !!! h) <$> all_keep_points st)
  else Returns [heap st !!! keep_points st].

(** The entry point over the loop with a deep copy. *)
Definition thinning_cloned `{Double} `{StdLib}
    (coordinates : list (double * double)) (thin_dist : double) (trials : Z)
    (all_trials : bool) (distance_metric : string) (R : double) (seed : Z)
  : outcome :=
  let st := Nat.iter (Z.to_nat trials)
              (trial_cloned coordinates thin_dist distance_metric R all_trials)
              (init coordinates seed) in
  if all_trials
  then Returns ((λ h, heap st !!! h) <$> all_keep_points st)
  else Returns [heap st !!! keep_points st].

(** ** The pass, unrolled

    The pairs [(point1_idx, point2_idx)] that the innermost loop body meets
    in one pass, in the order it meets them, and the effect of the body on
    one pair.  A point that is no longer kept when its turn comes scans
    nothing: its pairs leave the mask as it is. *)

Section Unrolled.
Context `{Double}.
Variable coordinates : list (double * double).
Variable thin_dist : double.
Variable distance_metric : string.
Variable R : double.

Local Abbreviation grid := (grid coordinates thin_dist).

(** The points that get their turn as [point1_idx] in one pass, in order. *)
Definition points_of_pass (grid_cells : list string) : list nat :=
  c ← grid_cells; default [] (grid !! c).

Definition pairs_of_point (point1_idx : nat) : list (nat * nat) :=
  c ← neighbor_cells coordinates thin_dist point1_idx;
  point2_idx ← default [] (grid !! c);
  [(point1_idx, point2_idx)].

Definition pairs_of_pass (grid_cells : list string) : list (nat * nat) :=
  c ← grid_cells; point1_idx ← default [] (grid !! c); pairs_of_point point1_idx.

Definition step (m : mask) (pq : nat * nat) : mask :=
  if kept m pq.1
  then check_point coordinates thin_dist distance_metric R pq.1 m pq.2
  else m.
End Unrolled.

(** ** An exact-arithmetic instance

    Rationals in place of doubles, and a generator that is a counter.  The
    engine runs on it as it is; it serves to evaluate the engine on concrete
    points.  The trigonometric functions are truncated series, good for
    small angles only. *)

Module Exact.

Definition dec (m e : Z) : Q := Qred (inject_Z m * Qpower (inject_Z 10) e).

Definition qsqrt (x : Q) : Q :=
  Qred (Qmake (Z.sqrt (Qnum x * Z.pos (Qden x) * 10 ^ 24)) (Qden x * 10 ^ 12)).

Definition qsin (x : Q) : Q :=
  Qred (x - x * x * x / inject_Z 6)%Q.

Definition qcos (x : Q) : Q :=
  Qred (inject_Z 1 - x * x / inject_Z 2)%Q.

(** Only used with [0 <= y] and [0 < x]: the first terms of the arctangent. *)
Definition qatan2 (y x : Q) : Q :=
  let t := (y / x)%Q in Qred (t - t * t * t / inject_Z 3)%Q.

Definition qpow (x y : Q) : Q := Qred (Qpower x (Qnum y / Z.pos (Qden y))).

Definition qround (x : Q) : Q :=
  inject_Z (Z.sgn (Qnum x) *
            ((2 * Z.abs (Qnum x) + Z.pos (Qden x)) / (2 * Z.pos (Qden x)))).

Definition qtrunc (x : Q) : Z := Z.quot (Qnum x) (Z.pos (Qden x)).

Definition exact_double : Double := {|
  double := Q;
  fdec := dec;
  M_PI := dec 314159265358979 (-14);
  fadd := λ a b, Qred (a + b);
  fsub := λ a b, Qred (a - b);
  fmul := λ a b, Qred (a * b);
  fdiv := λ a b, Qred (a / b);
  fsqrt := qsqrt;
  fsin := qsin;
  fcos := qcos;
  fatan2 := qatan2;
  fpow := qpow;
  fround := qround;
  ftrunc := qtrunc;
  fcompare := λ a b, Some (a ?= b)%Q;
|}.

(** The generator is a counter; a shuffle reverses the range on odd draws. *)
Definition flip (l : list string) (g : Z) : list string * Z :=
  (if Z.odd g then reverse l else l, g + 1).

Definition keys_of (m : gmap string (list nat)) : list string := (map_to_list m).*1.

Definition exact_stdlib : StdLib.
Proof.
  refine {| mt19937 := Z;
            mt19937_seed := λ seed, seed;
            shuffle := flip;
            umap_keys := keys_of |}.
  - intros l g. unfold flip; simpl.
    destruct (Z.odd g); [apply reverse_Permutation | reflexivity].
  - reflexivity.
Defined.



(** The scenario of four points in two close pairs. *)
Definition four_points : list (@double exact_double * @double exact_double) :=
  [ (dec 0 0, dec 0 0); (dec 0 0, dec 5 (-4));
    (dec 1 0, dec 1 0); (dec 1 0, dec 10005 (-4)) ].


(** Two points 0.05 apart: closer than a threshold of 0.1, and 56 cells
    away from each other. *)
Definition two_points : list (@double exact_double * @double exact_double) :=
  [ (dec 0 0, dec 0 0); (dec 0 0, dec 5 (-2)) ].
End Exact.


(** * Properties *)

(** ** Masks *)

Lemma kept_lt (m : mask) i : kept m i = true → (i < length m)%nat.
Proof.
  unfold kept. destruct (m !! i) eqn:E; [|done].
  intros _. by eapply lookup_lt_Some.
Qed.

Lemma kept_insert_false (m : mask) i j :
  kept (<[i:=false]> m) j = true → i ≠ j ∧ kept m j = true.
Proof.
  unfold kept. destruct (decide (i = j)) as [->|Hne].
  - destruct (decide (j < length m)%nat) as [Hlt|Hge].
    + by rewrite list_lookup_insert_eq.
    + rewrite list_insert_ge by lia. rewrite lookup_ge_None_2 by lia. done.
  - by rewrite list_lookup_insert_ne.
Qed.

Lemma kept_insert_ne (m : mask) i j b : i ≠ j → kept (<[i:=b]> m) j = kept m j.
Proof. intros. unfold kept. by rewrite list_lookup_insert_ne. Qed.

Lemma kept_insert_false_eq (m : mask) i : kept (<[i:=false]> m) i = false.
Proof.
  destruct (kept (<[i:=false]> m) i) eqn:E; [|done].
  by apply kept_insert_false in E as [? _].
Qed.

Lemma kept_replicate_true k i : kept (replicate k true) i = bool_decide (i < k)%nat.
Proof.
  unfold kept. case_bool_decide.
  - by rewrite lookup_replicate_2.
  - by rewrite lookup_ge_None_2 by (rewrite length_replicate; lia).
Qed.

Lemma shrinks_refl m : shrinks m m.
Proof. by split. Qed.

Lemma shrinks_trans m1 m2 m3 : shrinks m1 m2 → shrinks m2 m3 → shrinks m1 m3.
Proof. intros [? ?] [? ?]. split; [congruence | eauto]. Qed.

Lemma shrinks_insert_false m i : shrinks (<[i:=false]> m) m.
Proof.
  split; [apply length_insert|].
  intros j Hj. by apply kept_insert_false in Hj as [_ ?].
Qed.

Lemma Rcpp_sum_cons b m :
  Rcpp_sum (b :: m) = (if b then 1 else 0) + Rcpp_sum m.
Proof.
  unfold Rcpp_sum. destruct b.
  - rewrite filter_cons_True by done. simpl length. lia.
  - rewrite filter_cons_False by done. lia.
Qed.

Lemma Rcpp_sum_nonneg m : 0 ≤ Rcpp_sum m.
Proof. unfold Rcpp_sum. lia. Qed.

Lemma shrinks_sum m' m : shrinks m' m → Rcpp_sum m' ≤ Rcpp_sum m.
Proof.
  revert m. induction m' as [|b' m' IH]; intros [|b m] [Hlen Hk]; simplify_eq/=.
  - done.
  - rewrite !Rcpp_sum_cons.
    assert (Rcpp_sum m' ≤ Rcpp_sum m) as Htl.
    { apply IH. split; [done|]. intros i Hi. apply (Hk (S i) Hi). }
    destruct b'; [|destruct b; lia].
    assert (b = true) as -> by apply (Hk 0%nat eq_refl). lia.
Qed.

Lemma Rcpp_sum_pos m : 1 ≤ Rcpp_sum m ↔ ∃ i, kept m i = true.
Proof.
  induction m as [|b m IH].
  - split; [unfold Rcpp_sum; simpl; lia | by intros [i ?]].
  - rewrite Rcpp_sum_cons. destruct b.
    + pose proof (Rcpp_sum_nonneg m). split; [by exists 0%nat | lia].
    + rewrite Z.add_0_l, IH. split.
      * intros [i Hi]. by exists (S i).
      * intros [[|i] Hi]; [done | by exists i].
Qed.

Lemma Rcpp_sum_replicate_true k : Rcpp_sum (replicate k true) = Z.of_nat k.
Proof.
  induction k as [|k IH]; [done|].
  change (replicate (S k) true) with (true :: replicate k true).
  rewrite Rcpp_sum_cons. lia.
Qed.

(** A loop keeps what each of its iterations keeps. *)
Lemma foldl_invariant {A B} (P : A → Prop) (f : A → B → A) (l : list B) a :
  (∀ a b, b ∈ l → P a → P (f a b)) → P a → P (foldl f a l).
Proof.
  revert a. induction l as [|b l IH]; intros a Hf Ha; [done|].
  simpl. apply IH.
  - intros a' b' Hb'. apply Hf. by right.
  - apply Hf; [by left | done].
Qed.

Lemma foldl_shrinks {B} (f : mask → B → mask) (l : list B) m :
  (∀ a b, shrinks (f a b) a) → shrinks (foldl f m l) m.
Proof.
  intros Hf. apply (foldl_invariant (λ a, shrinks a m)); [|apply shrinks_refl].
  intros a b _ Ha. eapply shrinks_trans; [apply Hf | done].
Qed.

Lemma foldl_bind {A B C} (f : A → C → A) (k : B → list C) (l : list B) a :
  foldl f a (l ≫= k) = foldl (λ a b, foldl f a (k b)) a l.
Proof.
  revert a. induction l as [|b l IH]; intros a; [done|].
  simpl. by rewrite foldl_app, IH.
Qed.

(** ** The grid *)

Section GridProps.
Context `{Double}.
Variable coordinates : list (double * double).
Variable thin_dist : double.

Local Abbreviation n := (nrow coordinates).
Local Abbreviation grid := (grid coordinates thin_dist).
Local Abbreviation grid_cell := (grid_cell coordinates thin_dist).
Local Abbreviation bucket := (bucket coordinates thin_dist).

Lemma bucket_S k c :
  bucket (S k) c = bucket k c ++ (if decide (grid_cell k = c) then [k] else []).
Proof.
  unfold bucket. rewrite seq_S, filter_app. reflexivity.
Qed.

Lemma populate_lookup k c :
  populate coordinates thin_dist k !! c = if decide (bucket k c = []) then None else Some (bucket k c).
Proof.
  induction k as [|k IH].
  - done.
  - unfold populate in *.
    rewrite seq_S, foldl_app. simpl. unfold push_back at 1.
    rewrite bucket_S. destruct (decide (grid_cell k = c)) as [<-|Hne].
    + rewrite lookup_insert_eq, IH.
      rewrite (decide_False (P := _ ++ _ = [])) by (by intros [_ ?]%app_eq_nil).
      by case_decide as E; [rewrite E|].
    + rewrite lookup_insert_ne by done. by rewrite IH, app_nil_r.
Qed.

Lemma grid_lookup_Some c points :
  grid !! c = Some points ↔ points ≠ [] ∧ points = bucket n c.
Proof.
  unfold grid. rewrite populate_lookup. case_decide as E.
  - split; [done | intros [? ->]; congruence].
  - split; [intros [= <-]; done | intros [_ ->]; done].
Qed.

Lemma elem_of_bucket k c i : i ∈ bucket k c ↔ (i < k)%nat ∧ grid_cell i = c.
Proof.
  unfold bucket. rewrite list_elem_of_filter, elem_of_seq.
  split; intros [? ?]; (split; [lia || done | lia || done]).
Qed.

(** Every point sits in the bucket of its own cell, and only there. *)
Lemma grid_point i c points :
  grid !! c = Some points → i ∈ points ↔ (i < n)%nat ∧ grid_cell i = c.
Proof. intros [_ ->]%grid_lookup_Some. apply elem_of_bucket. Qed.

Lemma grid_own_cell i :
  (i < n)%nat → ∃ points, grid !! grid_cell i = Some points ∧ i ∈ points.
Proof.
  intros Hi. exists (bucket n (grid_cell i)).
  assert (i ∈ bucket n (grid_cell i)) as Hin by by apply elem_of_bucket.
  split; [|done]. apply grid_lookup_Some. split; [|done].
  intros E. rewrite E in Hin. by apply not_elem_of_nil in Hin.
Qed.

End GridProps.

(** ** One pass *)

Section PassProps.
Context `{Double}.
Variable coordinates : list (double * double).
Variable thin_dist : double.
Variable distance_metric : string.
Variable R : double.

Local Abbreviation n := (nrow coordinates).
Local Abbreviation grid := (grid coordinates thin_dist).
Local Abbreviation distance := (distance coordinates distance_metric R).
Local Abbreviation check_point := (check_point coordinates thin_dist distance_metric R).
Local Abbreviation check_cell := (check_cell coordinates thin_dist distance_metric R).
Local Abbreviation neighbor_cells := (neighbor_cells coordinates thin_dist).
Local Abbreviation thin_point := (thin_point coordinates thin_dist distance_metric R).
Local Abbreviation thin_cell := (thin_cell coordinates thin_dist distance_metric R).
Local Abbreviation trial_pass := (trial_pass coordinates thin_dist distance_metric R).
Local Abbreviation near := (near coordinates thin_dist).
Local Abbreviation drops := (drops coordinates thin_dist distance_metric R).
Local Abbreviation settled := (settled coordinates thin_dist distance_metric R).

(** *** Nothing is rescued *)

Lemma check_point_shrinks p1 m p2 : shrinks (check_point p1 m p2) m.
Proof.
  unfold check_point.
  repeat case_match; auto using shrinks_refl, shrinks_insert_false.
Qed.

Lemma check_cell_shrinks p1 m c : shrinks (check_cell p1 m c) m.
Proof.
  unfold check_cell. case_match; [|apply shrinks_refl].
  apply foldl_shrinks, check_point_shrinks.
Qed.

Lemma thin_point_shrinks m p1 : shrinks (thin_point m p1) m.
Proof.
  unfold thin_point. case_match; [|apply shrinks_refl].
  apply foldl_shrinks, check_cell_shrinks.
Qed.

Lemma thin_cell_shrinks m c : shrinks (thin_cell m c) m.
Proof. apply foldl_shrinks, thin_point_shrinks. Qed.

Lemma trial_pass_shrinks grid_cells m : shrinks (trial_pass grid_cells m) m.
Proof. apply foldl_shrinks, thin_cell_shrinks. Qed.

(** *** The scanning point stays *)

Lemma check_point_self p1 m p2 :
  kept m p1 = true → kept (check_point p1 m p2) p1 = true.
Proof.
  intros Hk. unfold check_point.
  destruct (bool_decide (p2 ≠ p1)) eqn:Hne; simpl; [|done].
  apply bool_decide_eq_true in Hne.
  repeat case_match; try done. by rewrite kept_insert_ne.
Qed.

Lemma check_cell_self p1 m c :
  kept m p1 = true → kept (check_cell p1 m c) p1 = true.
Proof.
  unfold check_cell. case_match; [|done].
  apply (foldl_invariant (λ a, kept a p1 = true)).
  intros a p2 _. apply check_point_self.
Qed.

Lemma scan_self p1 m cells :
  kept m p1 = true → kept (foldl (check_cell p1) m cells) p1 = true.
Proof.
  apply (foldl_invariant (λ a, kept a p1 = true)).
  intros a c _. apply check_cell_self.
Qed.

Lemma thin_point_some m p1 :
  (∃ i, kept m i = true) → ∃ i, kept (thin_point m p1) i = true.
Proof.
  intros Hex. unfold thin_point.
  destruct (kept m p1) eqn:Hk; [|done].
  exists p1. by apply scan_self.
Qed.

Lemma trial_pass_some grid_cells m :
  (∃ i, kept m i = true) → ∃ i, kept (trial_pass grid_cells m) i = true.
Proof.
  apply (foldl_invariant (λ a, ∃ i, kept a i = true)).
  intros a c _. apply (foldl_invariant (λ a, ∃ i, kept a i = true)).
  intros a' p1 _. apply thin_point_some.
Qed.

(** *** A pass settles the mask, and a settled mask is left alone *)

(** What holds after the iteration on [x] holds at the end of the loop, when
    it can only be helped by dropping points. *)
Lemma foldl_visit {B} (f : mask → B → mask) (Q : mask → Prop) (l : list B) m x :
  (∀ a b, shrinks (f a b) a) →
  (∀ a a', shrinks a' a → Q a → Q a') →
  x ∈ l → (∀ a, Q (f a x)) → Q (foldl f m l).
Proof.
  intros Hf Hdown (l1 & l2 & ->)%list_elem_of_split HQ.
  rewrite foldl_app. simpl.
  eapply Hdown; [by apply foldl_shrinks | apply HQ].
Qed.

Lemma dropped_down p2 (a a' : mask) :
  shrinks a' a → kept a p2 = false → kept a' p2 = false.
Proof.
  intros [_ Hk] Hp. destruct (kept a' p2) eqn:E; [|done].
  apply Hk in E. congruence.
Qed.

Lemma check_point_drops p1 m p2 :
  p2 ≠ p1 → fle (distance p1 p2) thin_dist = true →
  kept (check_point p1 m p2) p2 = false.
Proof.
  intros Hne Hle. unfold check_point.
  rewrite bool_decide_eq_true_2 by done. simpl.
  destruct (kept m p2) eqn:Hk; [|done].
  rewrite Hle. apply kept_insert_false_eq.
Qed.

Lemma thin_point_drops m p1 p2 :
  kept m p1 = true → drops p1 p2 → kept (thin_point m p1) p2 = false.
Proof.
  intros Hk (Hne & (c & points & Hc & Hg & Hp2) & Hle).
  unfold thin_point. rewrite Hk.
  apply (foldl_visit _ (λ a, kept a p2 = false) _ _ c);
    [apply check_cell_shrinks | apply dropped_down | done |].
  intros a. unfold check_cell. rewrite Hg.
  apply (foldl_visit _ (λ a, kept a p2 = false) _ _ p2);
    [apply check_point_shrinks | apply dropped_down | done |].
  intros a'. by apply check_point_drops.
Qed.

Lemma trial_pass_settled grid_cells m :
  length m = n →
  (∀ c, is_Some (grid !! c) → c ∈ grid_cells) →
  settled (trial_pass grid_cells m).
Proof.
  intros Hlen Hall p1 p2 Hk Hd.
  assert (p1 < n)%nat as Hp1.
  { apply kept_lt in Hk.
    by rewrite (proj1 (trial_pass_shrinks grid_cells m)), Hlen in Hk. }
  destruct (grid_own_cell coordinates thin_dist p1 Hp1) as (points & Hg & Hin).
  revert Hk.
  apply (foldl_visit _ (λ a, kept a p1 = true → kept a p2 = false) _ _
           (grid_cell coordinates thin_dist p1)).
  - apply thin_cell_shrinks.
  - intros a a' Hs HQ Hk'. eapply dropped_down; [done|].
    apply HQ. by apply Hs.
  - apply Hall. by rewrite Hg.
  - intros a. unfold thin_cell. rewrite Hg. simpl.
    apply (foldl_visit _ (λ a, kept a p1 = true → kept a p2 = false) _ _ p1).
    + apply thin_point_shrinks.
    + intros b b' Hs HQ Hk'. eapply dropped_down; [done|].
      apply HQ. by apply Hs.
    + done.
    + intros b Hk'. apply thin_point_drops; [|done].
      by apply (thin_point_shrinks b p1).
Qed.

Lemma settled_check_point m p1 p2 :
  settled m → kept m p1 = true → near p1 p2 → check_point p1 m p2 = m.
Proof.
  intros Hs Hk Hnear. unfold check_point.
  destruct (bool_decide (p2 ≠ p1)) eqn:Hne; simpl; [|done].
  apply bool_decide_eq_true in Hne.
  destruct (kept m p2) eqn:Hk2; [|done].
  destruct (fle (distance p1 p2) thin_dist) eqn:Hle; [|done].
  rewrite (Hs p1 p2) in Hk2; [done | done | by repeat split].
Qed.

Lemma foldl_fixed {B} (f : mask → B → mask) (l : list B) m :
  (∀ b, b ∈ l → f m b = m) → foldl f m l = m.
Proof.
  induction l as [|b l IH]; intros Hf; [done|].
  simpl. rewrite Hf by by left. apply IH. intros b' ?. apply Hf. by right.
Qed.

Lemma settled_thin_point m p1 : settled m → thin_point m p1 = m.
Proof.
  intros Hs. unfold thin_point. destruct (kept m p1) eqn:Hk; [|done].
  apply foldl_fixed. intros c Hc. unfold check_cell.
  destruct (grid !! c) as [points|] eqn:Hg; [|done].
  apply foldl_fixed. intros p2 Hp2.
  apply settled_check_point; [done..|]. by exists c, points.
Qed.

Lemma settled_trial_pass grid_cells m : settled m → trial_pass grid_cells m = m.
Proof.
  intros Hs. apply foldl_fixed. intros c _.
  apply foldl_fixed. intros p1 _. by apply settled_thin_point.
Qed.
End PassProps.

(** *** The pass, pair by pair *)

Section UnrolledProps.
Context `{Double}.
Variable coordinates : list (double * double).
Variable thin_dist : double.
Variable distance_metric : string.
Variable R : double.

Local Abbreviation grid := (grid coordinates thin_dist).
Local Abbreviation check_point := (check_point coordinates thin_dist distance_metric R).
Local Abbreviation check_cell := (check_cell coordinates thin_dist distance_metric R).
Local Abbreviation thin_point := (thin_point coordinates thin_dist distance_metric R).
Local Abbreviation trial_pass := (trial_pass coordinates thin_dist distance_metric R).
Local Abbreviation step := (step coordinates thin_dist distance_metric R).
Local Abbreviation pairs_of_point := (pairs_of_point coordinates thin_dist).
Local Abbreviation pairs_of_pass := (pairs_of_pass coordinates thin_dist).

Lemma foldl_ext_invariant {A B} (P : A → Prop) (f f' : A → B → A) (l : list B) a :
  (∀ a b, P a → f a b = f' a b) → (∀ a b, P a → P (f' a b)) →
  P a → foldl f a l = foldl f' a l.
Proof.
  intros Hext HP. revert a. induction l as [|b l IH]; intros a Ha; [done|].
  simpl. rewrite Hext by done. apply IH. by apply HP.
Qed.

Lemma step_shrinks m pq : shrinks (step m pq) m.
Proof.
  unfold step. case_match; [apply check_point_shrinks | apply shrinks_refl].
Qed.

Lemma thin_point_unrolled m p1 :
  thin_point m p1 = foldl step m (pairs_of_point p1).
Proof.
  unfold pairs_of_point. rewrite foldl_bind.
  unfold thin_point. destruct (kept m p1) eqn:Hk.
  - symmetry. apply (foldl_ext_invariant (λ a, kept a p1 = true)); [| |done].
    + intros a c Ha. rewrite foldl_bind. unfold check_cell.
      destruct (grid !! c) as [points|]; simpl; [|done].
      apply (foldl_ext_invariant (λ a, kept a p1 = true)); [| |done].
      * intros a' p2 Ha'. simpl. unfold step. simpl. by rewrite Ha'.
      * intros a' p2. apply check_point_self.
    + intros a c. apply check_cell_self.
  - symmetry. apply (foldl_invariant (λ a, a = m)); [|done].
    intros a c _ ->. rewrite foldl_bind.
    apply (foldl_invariant (λ a, a = m)); [|done].
    intros a p2 _ ->. simpl. unfold step. simpl. by rewrite Hk.
Qed.

Lemma trial_pass_unrolled grid_cells m :
  trial_pass grid_cells m = foldl step m (pairs_of_pass grid_cells).
Proof.
  unfold pairs_of_pass. rewrite foldl_bind. unfold trial_pass.
  apply (foldl_ext_invariant (λ _, True)); [|done..].
  intros a c _. unfold thin_cell. rewrite foldl_bind.
  apply (foldl_ext_invariant (λ _, True)); [|done..].
  intros a' p1 _. apply thin_point_unrolled.
Qed.

(** A pair changes the mask only when its first point is kept and is not
    its second point; the first point is still kept afterwards. *)
Lemma step_changes m p1 p2 :
  step m (p1, p2) ≠ m →
  kept m p1 = true ∧ p1 ≠ p2 ∧ kept m p2 = true ∧
  step m (p1, p2) = <[p2 := false]> m ∧ kept (step m (p1, p2)) p1 = true.
Proof.
  unfold step, check_point. simpl. intros Hch.
  destruct (kept m p1) eqn:Hk1; [|done].
  destruct (bool_decide (p2 ≠ p1)) eqn:Hne; simpl in *; [|done].
  apply bool_decide_eq_true in Hne.
  destruct (kept m p2) eqn:Hk2; [|done].
  destruct (fle _ _); [|done].
  repeat split; [done|]. by rewrite kept_insert_ne.
Qed.

Lemma step_some m pq :
  (∃ i, kept m i = true) → ∃ i, kept (step m pq) i = true.
Proof.
  intros Hex. destruct pq as [p1 p2].
  destruct (decide (step m (p1, p2) = m)) as [->|Hch]; [done|].
  exists p1. by apply step_changes.
Qed.
End UnrolledProps.

(** ** The selection over trials *)

Section SelectProps.
Context `{Double} `{StdLib}.
Variable coordinates : list (double * double).
Variable thin_dist : double.
Variable distance_metric : string.
Variable R : double.

Local Abbreviation n := (nrow coordinates).
Local Abbreviation grid := (grid coordinates thin_dist).
Local Abbreviation trial_pass := (trial_pass coordinates thin_dist distance_metric R).
Local Abbreviation trial_cells := (trial_cells coordinates thin_dist).
Local Abbreviation trial_mask := (trial_mask coordinates thin_dist distance_metric R).
Local Abbreviation improves := (improves coordinates thin_dist distance_metric R).
Local Abbreviation trial := (trial coordinates thin_dist distance_metric R).
Local Abbreviation init := (init coordinates).
Local Abbreviation after := (after coordinates thin_dist distance_metric R).
Local Abbreviation settled := (settled coordinates thin_dist distance_metric R).
Local Abbreviation first_trial := (first_trial coordinates thin_dist distance_metric R).
Local Abbreviation steady := (steady coordinates thin_dist distance_metric R).
Local Abbreviation trial_cloned := (trial_cloned coordinates thin_dist distance_metric R).
Local Abbreviation steady_cloned :=
  (steady_cloned coordinates thin_dist distance_metric R).

Lemma trial_cells_cover st c : is_Some (grid !! c) → c ∈ trial_cells st.
Proof.
  intros [points Hc]. unfold trial_cells.
  rewrite shuffle_perm, umap_keys_perm.
  apply list_elem_of_fmap. exists (c, points). split; [done|].
  by apply elem_of_map_to_list.
Qed.

Lemma first_trial_init seed : trial_mask (init seed) = first_trial seed.
Proof. done. Qed.

Lemma first_trial_shrinks seed : shrinks (first_trial seed) (replicate n true).
Proof. apply trial_pass_shrinks. Qed.

Lemma first_trial_length seed : length (first_trial seed) = n.
Proof.
  rewrite (proj1 (first_trial_shrinks seed)). apply length_replicate.
Qed.

Lemma first_trial_settled seed : settled (first_trial seed).
Proof.
  apply trial_pass_settled; [apply length_replicate|].
  apply (trial_cells_cover (init seed)).
Qed.

Lemma first_trial_some seed : (1 ≤ n)%nat → 1 ≤ Rcpp_sum (first_trial seed).
Proof.
  intros Hn. apply Rcpp_sum_pos, trial_pass_some.
  exists 0%nat. rewrite kept_replicate_true. by apply bool_decide_eq_true.
Qed.

Lemma steady_trial_mask all_trials seed t st :
  steady all_trials seed t st → trial_mask st = first_trial seed.
Proof.
  intros (Hh & Hk & _). unfold trial_mask. rewrite Hh, Hk. simpl.
  apply settled_trial_pass, first_trial_settled.
Qed.

Lemma steady_improves all_trials seed t st :
  steady all_trials seed t st → improves st = false.
Proof.
  intros Hst. unfold improves.
  rewrite (steady_trial_mask _ _ _ _ Hst).
  destruct Hst as (_ & _ & -> & _). apply Z.ltb_irrefl.
Qed.

Lemma steady_first all_trials seed : steady all_trials seed 1 (after all_trials seed 1).
Proof.
  unfold after, steady. simpl.
  rewrite !first_trial_init. split_and!.
  - done.
  - by destruct (improves (init seed)).
  - destruct (improves (init seed)) eqn:E; simpl; [done|].
    unfold improves in E. rewrite first_trial_init in E. simpl in E.
    apply Z.ltb_ge in E. pose proof (Rcpp_sum_nonneg (first_trial seed)). lia.
  - by destruct all_trials.
Qed.

Lemma steady_step all_trials seed t st :
  steady all_trials seed t st → steady all_trials seed (S t) (trial all_trials st).
Proof.
  intros Hst. pose proof (steady_trial_mask _ _ _ _ Hst) as Hm.
  pose proof (steady_improves _ _ _ _ Hst) as Hi.
  destruct Hst as (Hh & Hk & Hb & Ha).
  unfold trial, steady. simpl. rewrite Hm, Hi, Hh, Hk, Ha.
  repeat split; [done|]. destruct all_trials; [|done].
  by rewrite <-replicate_S_end.
Qed.

Lemma steady_after all_trials seed t :
  steady all_trials seed (S t) (after all_trials seed (S t)).
Proof.
  induction t as [|t IH]; [apply steady_first|].
  by apply steady_step in IH.
Qed.

(** What a call returns. *)
Lemma thinning_without_trial trials all_trials seed :
  trials ≤ 0 →
  rounding_hashing_thinning coordinates thin_dist trials all_trials
    distance_metric R seed
  = Returns (if all_trials then [] else [replicate n true]).
Proof.
  intros Ht. unfold rounding_hashing_thinning.
  replace (Z.to_nat trials) with 0%nat by lia.
  by destruct all_trials.
Qed.

Lemma thinning_with_trials trials all_trials seed :
  1 ≤ trials →
  rounding_hashing_thinning coordinates thin_dist trials all_trials
    distance_metric R seed
  = Returns (if all_trials then replicate (Z.to_nat trials) (first_trial seed)
             else [first_trial seed]).
Proof.
  intros Ht. unfold rounding_hashing_thinning.
  destruct (Z.to_nat trials) as [|t] eqn:Et; [lia|].
  destruct (steady_after all_trials seed t) as (Hh & Hk & _ & Ha).
  rewrite Hh, Hk, Ha. destruct all_trials; [|done].
  f_equal. rewrite fmap_replicate. done.
Qed.

(** *** Sharing the vector or copying it *)

Lemma steady_cloned_first all_trials seed :
  steady_cloned all_trials seed 1 (trial_cloned all_trials (init seed)).
Proof.
  unfold steady_cloned, trial_cloned. simpl.
  rewrite !first_trial_init.
  destruct (improves (init seed)) eqn:E; simpl.
  - split_and!; [lia | done | done | by destruct all_trials |].
    destruct all_trials; repeat constructor.
  - unfold improves in E. rewrite first_trial_init in E. simpl in E.
    apply Z.ltb_ge in E. pose proof (Rcpp_sum_nonneg (first_trial seed)).
    assert (n = 0%nat) as Hn.
    { destruct (decide (1 ≤ n)%nat) as [Hn|]; [|lia].
      apply (first_trial_some seed) in Hn. lia. }
    pose proof (first_trial_length seed) as Hl. rewrite Hn in Hl.
    apply nil_length_inv in Hl. rewrite Hl, Hn.
    split_and!; [lia | done | done | by destruct all_trials |].
    destruct all_trials; repeat constructor.
Qed.

Lemma steady_cloned_step all_trials seed t st :
  steady_cloned all_trials seed t st →
  steady_cloned all_trials seed (S t) (trial_cloned all_trials st).
Proof.
  intros (Hlt & Hk & Hb & Hlen & Ha).
  assert (trial_mask st = first_trial seed) as Hm.
  { unfold trial_mask. rewrite Hk.
    apply settled_trial_pass, first_trial_settled. }
  assert (improves st = false) as Hi.
  { unfold improves. rewrite Hm, Hb. apply Z.ltb_irrefl. }
  assert (Forall (λ h, (h < length (heap st ++ [first_trial seed]))%nat ∧
                       (heap st ++ [first_trial seed]) !!! h = first_trial seed)
                 (all_keep_points st)) as Ha'.
  { eapply Forall_impl; [done|]. intros h [Hh Hd]. simpl.
    rewrite length_app, lookup_total_app_l by done. split; [lia | done]. }
  unfold steady_cloned, trial_cloned. simpl. rewrite Hm, Hi.
  split_and!.
  - rewrite length_app. lia.
  - by rewrite lookup_total_app_l.
  - done.
  - destruct all_trials; [|done]. rewrite length_app. simpl. lia.
  - destruct all_trials; [|done]. apply Forall_app. split; [done|].
    repeat constructor.
    + rewrite length_app. simpl. lia.
    + rewrite lookup_total_app_r by done. by rewrite Nat.sub_diag.
Qed.

Lemma steady_cloned_after all_trials seed t :
  steady_cloned all_trials seed (S t)
    (Nat.iter (S t) (trial_cloned all_trials) (init seed)).
Proof.
  induction t as [|t IH]; [apply steady_cloned_first|].
  by apply steady_cloned_step in IH.
Qed.

Lemma fmap_all_equal {A B} (f : A → B) (l : list A) b :
  Forall (λ a, f a = b) l → f <$> l = replicate (length l) b.
Proof.
  induction 1 as [|a l Ha _ IH]; [done|].
  rewrite fmap_cons, Ha, IH. done.
Qed.

(** Whether the trial writes through the shared vector or into a copy of
    its own, a call returns the same masks. *)
Lemma sharing_unseen trials all_trials seed :
  thinning_cloned coordinates thin_dist trials all_trials distance_metric R seed
  = rounding_hashing_thinning coordinates thin_dist trials all_trials
      distance_metric R seed.
Proof.
  destruct (decide (1 ≤ trials)) as [Ht|Ht].
  - rewrite thinning_with_trials by done. unfold thinning_cloned.
    destruct (Z.to_nat trials) as [|t] eqn:Et; [lia|].
    destruct (steady_cloned_after all_trials seed t) as (_ & Hk & _ & Hl & Ha).
    destruct all_trials; [|by rewrite Hk].
    f_equal. rewrite (fmap_all_equal _ _ (first_trial seed)); [by rewrite Hl|].
    eapply Forall_impl; [done|]. by intros h [_ ?].
  - rewrite thinning_without_trial by lia. unfold thinning_cloned.
    replace (Z.to_nat trials) with 0%nat by lia.
    by destruct all_trials.
Qed.
End SelectProps.

(** ** Cell names *)

Lemma pretty_N_char_plain x : pretty_N_char x ≠ "_"%char.
Proof. unfold pretty_N_char. by repeat case_match. Qed.

Lemma pretty_N_go_plain x s : plain s → plain (pretty_N_go x s).
Proof.
  revert s. induction (N.lt_wf_0 x) as [x _ IH]; intros s Hs.
  destruct (decide (x = 0)%N) as [->|Hx]; [by rewrite pretty_N_go_0|].
  rewrite pretty_N_go_step by lia. apply IH.
  - apply N.div_lt; lia.
  - split; [apply pretty_N_char_plain | done].
Qed.

Lemma pretty_N_plain (x : N) : plain (pretty x).
Proof.
  unfold pretty, pretty_N. case_decide; [by compute|].
  by apply pretty_N_go_plain.
Qed.

Lemma to_string_plain z : plain (to_string z).
Proof.
  unfold to_string, pretty, pretty_Z. destruct z as [|p|p].
  - by compute.
  - apply (pretty_N_plain (N.pos p)).
  - simpl. split; [done | apply (pretty_N_plain (N.pos p))].
Qed.

Lemma plain_split s1 s1' s2 s2' :
  plain s1 → plain s1' →
  s1 +:+ String "_" s2 = s1' +:+ String "_" s2' → s1 = s1' ∧ s2 = s2'.
Proof.
  revert s1'. induction s1 as [|a s1 IH]; intros [|a' s1']; simpl.
  - intros _ _ [= ->]. done.
  - intros _ [Ha' _] [= <- _]. done.
  - intros [Ha _] _ [= -> _]. done.
  - intros [_ Hs1] [_ Hs1'] [= -> Heq].
    destruct (IH _ Hs1 Hs1' Heq) as [-> ->]. done.
Qed.

(** Two cells have the same name only when they are the same cell. *)
Lemma cell_name_inj a b a' b' :
  cell_name a b = cell_name a' b' → a = a' ∧ b = b'.
Proof.
  unfold cell_name. intros Heq.
  apply plain_split in Heq as [Ha Hb]; [|apply to_string_plain..].
  split; by apply (inj pretty).
Qed.


(** * The claims *)

Section Claims.
Context `{Double} `{StdLib}.
Variable coordinates : list (double * double).
Variable thin_dist : double.
Variable distance_metric : string.
Variable R : double.

Local Abbreviation n := (nrow coordinates).
Local Abbreviation grid := (grid coordinates thin_dist).
Local Abbreviation lon := (lon coordinates).
Local Abbreviation lat := (lat coordinates).
Local Abbreviation precision := (precision thin_dist).
Local Abbreviation grid_lon := (grid_lon coordinates thin_dist).
Local Abbreviation grid_lat := (grid_lat coordinates thin_dist).
Local Abbreviation grid_cell := (grid_cell coordinates thin_dist).
Local Abbreviation populate := (populate coordinates thin_dist).
Local Abbreviation bucket := (bucket coordinates thin_dist).
Local Abbreviation distance := (distance coordinates distance_metric R).
Local Abbreviation trial_pass := (trial_pass coordinates thin_dist distance_metric R).
Local Abbreviation improves := (improves coordinates thin_dist distance_metric R).
Local Abbreviation after := (after coordinates thin_dist distance_metric R).
Local Abbreviation first_trial := (first_trial coordinates thin_dist distance_metric R).
Local Abbreviation settled := (settled coordinates thin_dist distance_metric R).
Local Abbreviation step := (step coordinates thin_dist distance_metric R).
Local Abbreviation pairs_of_pass := (pairs_of_pass coordinates thin_dist).

(** C1.  With at least one point and at least one trial, the single mask
    returned when not all trials are asked for is the mask of the first
    trial, the pass from the all-kept mask: it has the first trial's count.
    The first trial passes the test [current_size > best_size] and sets
    [best_size] to its count, which is not zero; no later trial passes the
    test, whether all trials are collected or not. *)
Theorem first_trial_dominance trials seed :
  (1 ≤ n)%nat → 1 ≤ trials →
  (∃ m,
     rounding_hashing_thinning
       coordinates thin_dist trials false distance_metric R seed
     = Returns [m] ∧
     m = first_trial seed ∧
     Rcpp_sum m = Rcpp_sum (first_trial seed)) ∧
  (∀ all_trials,
     improves (after all_trials seed 0) = true ∧
     best_size (after all_trials seed 1) = Rcpp_sum (first_trial seed) ∧
     1 ≤ best_size (after all_trials seed 1)) ∧
  (∀ all_trials t, (1 ≤ t)%nat → improves (after all_trials seed t) = false).
Proof.
  intros Hn Ht.
  pose proof (first_trial_some coordinates thin_dist distance_metric R seed Hn).
  split_and!.
  - exists (first_trial seed). split_and!; [|done..].
    by rewrite thinning_with_trials.
  - intros all_trials.
    destruct (steady_after coordinates thin_dist distance_metric R
                all_trials seed 0) as (_ & _ & Hb & _).
    split_and!; [|done|by rewrite Hb].
    unfold after, improves. simpl. rewrite first_trial_init. simpl.
    apply Z.ltb_lt. lia.
  - intros all_trials [|t] Hge; [lia|].
    eapply steady_improves, steady_after.
Qed.

(** C2.  A pass, over any cells in any order and from any mask, rescues
    nothing: the mask keeps its length, a point dropped at the start is
    dropped at the end, and the count of kept points does not grow. *)
Theorem pass_never_rescues grid_cells (m : mask) :
  length (trial_pass grid_cells m) = length m ∧
  (∀ i, kept m i = false → kept (trial_pass grid_cells m) i = false) ∧
  Rcpp_sum (trial_pass grid_cells m) ≤ Rcpp_sum m.
Proof.
  pose proof (trial_pass_shrinks coordinates thin_dist distance_metric R
                grid_cells m) as Hs.
  split_and!.
  - apply Hs.
  - intros i. by apply dropped_down.
  - by apply shrinks_sum.
Qed.

(** C3, as the code has it.  A metric string other than ["haversine"] is
    not rejected: the call returns masks, the distance is the euclidean
    one, and the call does what it does for ["euclidean"]. *)
Theorem other_metric_is_euclidean trials all_trials seed :
  distance_metric ≠ "haversine" →
  (∀ p1 p2, distance p1 p2
            = euclideanDistance (lon p1) (lat p1) (lon p2) (lat p2)) ∧
  rounding_hashing_thinning
    coordinates thin_dist trials all_trials distance_metric R seed
  = rounding_hashing_thinning
      coordinates thin_dist trials all_trials "euclidean" R seed ∧
  ∃ masks,
    rounding_hashing_thinning
      coordinates thin_dist trials all_trials distance_metric R seed
    = Returns masks.
Proof.
  intros Hne. apply String.eqb_neq in Hne. split_and!.
  - intros p1 p2. unfold distance. by rewrite Hne.
  - unfold rounding_hashing_thinning, after, trial, improves, trial_mask,
      trial_pass, thin_cell, thin_point, check_cell, check_point, distance.
    rewrite Hne. done.
  - unfold rounding_hashing_thinning. destruct all_trials; by eexists.
Qed.

(** C4, as the code has it.  No argument is validated: whatever the signs
    of the threshold, of the trial count and of the radius, the call
    returns masks and raises nothing.  With a trial count of zero or less
    no trial runs: the call returns the all-kept mask, or no mask at all
    when all trials are asked for. *)
Theorem no_argument_validation trials all_trials seed :
  (∃ masks,
     rounding_hashing_thinning
       coordinates thin_dist trials all_trials distance_metric R seed
     = Returns masks) ∧
  (trials ≤ 0 →
   rounding_hashing_thinning
     coordinates thin_dist trials all_trials distance_metric R seed
   = Returns (if all_trials then [] else [replicate n true])).
Proof.
  split; [|apply thinning_without_trial].
  unfold rounding_hashing_thinning. destruct all_trials; by eexists.
Qed.


(** C7.  When any two distinct points are farther apart than the threshold,
    under the metric of the call, the call returns the mask that keeps
    every point, for any trial count and any seed: that one mask when the
    best mask is asked for, and one copy of it per trial when all trials
    are. *)
Theorem far_points_all_kept trials all_trials seed :
  (∀ i j, (i < n)%nat → (j < n)%nat → i ≠ j →
          fgt (distance i j) thin_dist = true) →
  rounding_hashing_thinning
    coordinates thin_dist trials all_trials distance_metric R seed
  = Returns (if all_trials
             then replicate (Z.to_nat trials) (replicate n true)
             else [replicate n true]).
Proof.
  intros Hfar.
  assert (settled (replicate n true)) as Hs.
  { intros p1 p2 Hk (Hne & (c & points & _ & Hg & Hin) & Hle).
    rewrite kept_replicate_true in Hk. apply bool_decide_eq_true in Hk.
    apply (grid_point _ _ _ _ _ Hg) in Hin as [Hp2 _].
    specialize (Hfar p1 p2 Hk Hp2 (not_eq_sym Hne)).
    unfold fle, fgt in *. by repeat case_match. }
  assert (first_trial seed = replicate n true) as Hft
    by by apply settled_trial_pass.
  destruct (decide (1 ≤ trials)) as [Ht|Ht].
  - rewrite thinning_with_trials by done. by rewrite Hft.
  - rewrite thinning_without_trial by lia.
    by replace (Z.to_nat trials) with 0%nat by lia.
Qed.

(** C8.  Without points and with a positive trial count the call raises
    nothing: it returns the empty mask, or one empty mask per trial. *)
Theorem empty_input trials all_trials seed :
  nrow coordinates = 0%nat → 1 ≤ trials →
  rounding_hashing_thinning
    coordinates thin_dist trials all_trials distance_metric R seed
  = Returns (if all_trials then replicate (Z.to_nat trials) [] else [[]]).
Proof.
  intros Hn Ht. rewrite thinning_with_trials by done.
  pose proof (first_trial_length coordinates thin_dist distance_metric R seed)
    as Hl.
  rewrite Hn in Hl. apply nil_length_inv in Hl. by rewrite Hl.
Qed.

(** C9.  Every mask a call returns has one entry per point, for any number
    of points and any trial count. *)
Theorem mask_length trials all_trials seed :
  ∃ masks,
    rounding_hashing_thinning
      coordinates thin_dist trials all_trials distance_metric R seed
    = Returns masks ∧
    Forall (λ m : mask, length m = nrow coordinates) masks.
Proof.
  pose proof (first_trial_length coordinates thin_dist distance_metric R seed)
    as Hl.
  destruct (decide (1 ≤ trials)) as [Ht|Ht].
  - eexists. split; [by apply thinning_with_trials|].
    destruct all_trials; [by apply Forall_replicate | by repeat constructor].
  - eexists. split; [apply thinning_without_trial; lia|].
    destruct all_trials; repeat constructor. apply length_replicate.
Qed.

(** C10.  With at least one point, no mask is ever without a kept point.
    A pass is the run of [step] over its pairs; a pair that changes the
    mask drops its second point while its first point, another point, is
    kept, and leaves the first point kept.  So from a mask with a kept
    point, the mask after any number of pairs has a kept point, and so has
    the mask at the end of the pass and every mask a call returns. *)
Theorem retained_never_empty :
  (1 ≤ n)%nat →
  (∀ grid_cells m,
     trial_pass grid_cells m = foldl step m (pairs_of_pass grid_cells)) ∧
  (∀ m p1 p2, step m (p1, p2) ≠ m →
     kept m p1 = true ∧ p1 ≠ p2 ∧ kept m p2 = true ∧
     step m (p1, p2) = <[p2 := false]> m ∧ kept (step m (p1, p2)) p1 = true) ∧
  (∀ grid_cells m done, 1 ≤ Rcpp_sum m →
     done `prefix_of` pairs_of_pass grid_cells →
     1 ≤ Rcpp_sum (foldl step m done)) ∧
  (∀ grid_cells m, 1 ≤ Rcpp_sum m → 1 ≤ Rcpp_sum (trial_pass grid_cells m)) ∧
  (∀ trials all_trials seed,
     ∃ masks,
       rounding_hashing_thinning
         coordinates thin_dist trials all_trials distance_metric R seed
       = Returns masks ∧
       Forall (λ m : mask, 1 ≤ Rcpp_sum m) masks).
Proof.
  intros Hn. split_and!.
  - apply trial_pass_unrolled.
  - apply step_changes.
  - intros grid_cells m done Hm _. apply Rcpp_sum_pos.
    apply (foldl_invariant (λ a, ∃ i, kept a i = true));
      [|by apply Rcpp_sum_pos].
    intros a pq _. apply step_some.
  - intros grid_cells m Hm. by apply Rcpp_sum_pos, trial_pass_some, Rcpp_sum_pos.
  - intros trials all_trials seed.
    pose proof (first_trial_some coordinates thin_dist distance_metric R seed Hn).
    assert (1 ≤ Rcpp_sum (replicate n true))
      by (rewrite Rcpp_sum_replicate_true; lia).
    destruct (decide (1 ≤ trials)) as [Ht|Ht].
    + eexists. split; [by apply thinning_with_trials|].
      destruct all_trials; [by apply Forall_replicate | by repeat constructor].
    + eexists. split; [apply thinning_without_trial; lia|].
      destruct all_trials; by repeat constructor.
Qed.
End Claims.


(** * The claims on concrete points

    The four points in two close pairs, with exact arithmetic: a
    threshold of 0.1 and a radius of 6371. *)

(** One trial keeps one point of each pair. *)
Lemma four_points_scenario :
  @rounding_hashing_thinning Exact.exact_double Exact.exact_stdlib
    Exact.four_points (Exact.dec 1 (-1)) 1 false
    "euclidean" (Exact.dec 6371 0) 42
  = Returns [[false; true; true; false]] ∧
  @rounding_hashing_thinning Exact.exact_double Exact.exact_stdlib
    Exact.four_points (Exact.dec 1 (-1)) 3 true
    "euclidean" (Exact.dec 6371 0) 41
  = Returns [[true; false; false; true]; [true; false; false; true];
             [true; false; false; true]].
Proof. split; by vm_compute. Qed.

Lemma first_trial_dominance_witness :
  (1 ≤ nrow Exact.four_points)%nat ∧ 1 ≤ 3 ∧
  ∃ m, @rounding_hashing_thinning Exact.exact_double Exact.exact_stdlib
         Exact.four_points (Exact.dec 1 (-1)) 3 false
         "euclidean" (Exact.dec 6371 0) 42 = Returns [m] ∧
       m = @first_trial Exact.exact_double Exact.exact_stdlib
             Exact.four_points (Exact.dec 1 (-1)) "euclidean"
             (Exact.dec 6371 0) 42 ∧
       Rcpp_sum m
       = Rcpp_sum (@first_trial Exact.exact_double Exact.exact_stdlib
                     Exact.four_points (Exact.dec 1 (-1)) "euclidean"
                     (Exact.dec 6371 0) 42).
Proof.
  assert (1 ≤ nrow Exact.four_points)%nat as Hn by (vm_compute; lia).
  assert (1 ≤ 3) as Ht by lia.
  split_and!; [exact Hn | exact Ht |].
  exact (proj1 (@first_trial_dominance Exact.exact_double Exact.exact_stdlib
                  Exact.four_points (Exact.dec 1 (-1)) "euclidean"
                  (Exact.dec 6371 0) 3 42 Hn Ht)).
Defined.

Lemma other_metric_is_euclidean_witness :
  "planar" ≠ "haversine" ∧
  @rounding_hashing_thinning Exact.exact_double Exact.exact_stdlib
    Exact.four_points (Exact.dec 1 (-1)) 2 true "planar" (Exact.dec 6371 0) 42
  = @rounding_hashing_thinning Exact.exact_double Exact.exact_stdlib
      Exact.four_points (Exact.dec 1 (-1)) 2 true
      "euclidean" (Exact.dec 6371 0) 42.
Proof.
  assert ("planar" ≠ "haversine") as Hne by discriminate.
  split; [exact Hne|].
  exact (proj1 (proj2
    (@other_metric_is_euclidean Exact.exact_double Exact.exact_stdlib
       Exact.four_points (Exact.dec 1 (-1)) "planar" (Exact.dec 6371 0)
       2 true 42 Hne))).
Defined.

(** C3 as stated fails: the metric ["planar"] is not ["haversine"], and
    the call returns a mask instead of raising [InvalidArgument]. *)
Lemma unknown_metric_accepted :
  "planar" ≠ "haversine" ∧
  @rounding_hashing_thinning Exact.exact_double Exact.exact_stdlib
    Exact.four_points (Exact.dec 1 (-1)) 1 false "planar" (Exact.dec 6371 0) 42
  = Returns [[false; true; true; false]] ∧
  @rounding_hashing_thinning Exact.exact_double Exact.exact_stdlib
    Exact.four_points (Exact.dec 1 (-1)) 1 false "planar" (Exact.dec 6371 0) 42
  ≠ Raises InvalidArgument.
Proof.
  split_and!; [discriminate | by vm_compute | vm_compute; discriminate].
Qed.

(** C4 as stated fails: a trial count of 0, a threshold of -0.1 and a
    radius of 0 are each met by a list of masks (the all-kept mask for the
    first two), not by [InvalidArgument]. *)
Lemma nonpositive_arguments_accepted :
  (0 ≤ 0 ∧
   @rounding_hashing_thinning Exact.exact_double Exact.exact_stdlib
     Exact.four_points (Exact.dec 1 (-1)) 0 false
     "euclidean" (Exact.dec 6371 0) 42
   ≠ Raises InvalidArgument) ∧
  (@fle Exact.exact_double (Exact.dec (-1) (-1)) (Exact.dec 0 0) = true ∧
   @rounding_hashing_thinning Exact.exact_double Exact.exact_stdlib
     Exact.four_points (Exact.dec (-1) (-1)) 1 false
     "euclidean" (Exact.dec 6371 0) 42
   ≠ Raises InvalidArgument) ∧
  (@fle Exact.exact_double (Exact.dec 0 0) (Exact.dec 0 0) = true ∧
   @rounding_hashing_thinning Exact.exact_double Exact.exact_stdlib
     Exact.four_points (Exact.dec 1 (-1)) 1 false
     "haversine" (Exact.dec 0 0) 42
   ≠ Raises InvalidArgument).
Proof.
  split_and!; try lia; try (by vm_compute); vm_compute; discriminate.
Qed.

Lemma no_argument_validation_witness :
  0 ≤ 0 ∧
  @rounding_hashing_thinning Exact.exact_double Exact.exact_stdlib
    Exact.four_points (Exact.dec 1 (-1)) 0 true
    "euclidean" (Exact.dec 6371 0) 42
  = Returns [].
Proof.
  assert (0 ≤ 0) as Ht by lia.
  split; [exact Ht|].
  exact (proj2 (@no_argument_validation Exact.exact_double Exact.exact_stdlib
                  Exact.four_points (Exact.dec 1 (-1)) "euclidean"
                  (Exact.dec 6371 0) 0 true 42) Ht).
Defined.


(** The same points with a threshold of 0.0001: no two are that close. *)
Lemma far_points_all_kept_witness :
  (∀ i j, (i < nrow Exact.four_points)%nat → (j < nrow Exact.four_points)%nat →
          i ≠ j →
          @fgt Exact.exact_double
            (@distance Exact.exact_double Exact.four_points "euclidean"
               (Exact.dec 6371 0) i j)
            (Exact.dec 1 (-4)) = true) ∧
  @rounding_hashing_thinning Exact.exact_double Exact.exact_stdlib
    Exact.four_points (Exact.dec 1 (-4)) 3 false
    "euclidean" (Exact.dec 6371 0) 42
  = Returns [[true; true; true; true]].
Proof.
  assert (∀ i j, (i < nrow Exact.four_points)%nat →
                 (j < nrow Exact.four_points)%nat → i ≠ j →
                 @fgt Exact.exact_double
                   (@distance Exact.exact_double Exact.four_points "euclidean"
                      (Exact.dec 6371 0) i j)
                   (Exact.dec 1 (-4)) = true) as Hfar.
  { intros i j Hi Hj Hne. unfold nrow in Hi, Hj. simpl in Hi, Hj.
    destruct i as [|[|[|[|i]]]]; [| | |  |lia];
      (destruct j as [|[|[|[|j]]]]; [| | | |lia]);
      try (exfalso; apply Hne; reflexivity); vm_compute; reflexivity. }
  split; [exact Hfar|].
  exact (@far_points_all_kept Exact.exact_double Exact.exact_stdlib
           Exact.four_points (Exact.dec 1 (-4)) "euclidean" (Exact.dec 6371 0)
           3 false 42 Hfar).
Defined.

Lemma empty_input_witness :
  @nrow Exact.exact_double [] = 0%nat ∧ 1 ≤ 2 ∧
  @rounding_hashing_thinning Exact.exact_double Exact.exact_stdlib
    [] (Exact.dec 1 (-1)) 2 true "haversine" (Exact.dec 6371 0) 42
  = Returns [[]; []].
Proof.
  assert (1 ≤ 2) as Ht by lia.
  split_and!; [reflexivity | exact Ht |].
  exact (@empty_input Exact.exact_double Exact.exact_stdlib
           [] (Exact.dec 1 (-1)) "haversine" (Exact.dec 6371 0) 2 true 42
           eq_refl Ht).
Defined.

Lemma retained_never_empty_witness :
  (1 ≤ nrow Exact.four_points)%nat ∧
  ∀ trials all_trials seed,
    ∃ masks,
      @rounding_hashing_thinning Exact.exact_double Exact.exact_stdlib
        Exact.four_points (Exact.dec 1 (-1)) trials all_trials
        "euclidean" (Exact.dec 6371 0) seed = Returns masks ∧
      Forall (λ m : mask, 1 ≤ Rcpp_sum m) masks.
Proof.
  assert (1 ≤ nrow Exact.four_points)%nat as Hn by (vm_compute; lia).
  split; [exact Hn|].
  exact (proj2 (proj2 (proj2 (proj2
    (@retained_never_empty Exact.exact_double Exact.exact_stdlib
       Exact.four_points (Exact.dec 1 (-1)) "euclidean" (Exact.dec 6371 0)
       Hn))))).
Defined.

(** * Further properties of the engine *)

(** ** Machine integers *)

Lemma int_wrap_range z : - 2 ^ 31 ≤ int_wrap z < 2 ^ 31.
Proof.
  unfold int_wrap.
  change (2 ^ 31) with 2147483648. change (2 ^ 32) with 4294967296.
  pose proof (Z.mod_pos_bound (z + 2147483648) 4294967296). lia.
Qed.

Lemma int_wrap_back a d :
  - 2 ^ 31 ≤ a < 2 ^ 31 → int_wrap (int_wrap (a + d) - d) = a.
Proof.
  unfold int_wrap.
  change (2 ^ 31) with 2147483648. change (2 ^ 32) with 4294967296.
  intros Ha.
  replace ((a + d + 2147483648) `mod` 4294967296 - 2147483648 - d + 2147483648)
    with (a + 2147483648 + - ((a + d + 2147483648) `div` 4294967296) * 4294967296)
    by (pose proof (Z.div_mod (a + d + 2147483648) 4294967296); lia).
  rewrite Z.mod_add by lia. rewrite Z.mod_small by lia. lia.
Qed.

Lemma int_wrap_same a : - 2 ^ 31 ≤ a < 2 ^ 31 → int_wrap (a + 0) = a.
Proof.
  unfold int_wrap.
  change (2 ^ 31) with 2147483648. change (2 ^ 32) with 4294967296.
  intros Ha. rewrite Z.add_0_r, Z.mod_small by lia. lia.
Qed.

(** ** The nine cells around a point *)

Section Neighbours.
Context `{Double}.
Variable coordinates : list (double * double).
Variable thin_dist : double.

Local Abbreviation n := (nrow coordinates).
Local Abbreviation grid := (grid coordinates thin_dist).
Local Abbreviation grid_lon := (grid_lon coordinates thin_dist).
Local Abbreviation grid_lat := (grid_lat coordinates thin_dist).
Local Abbreviation grid_cell := (grid_cell coordinates thin_dist).
Local Abbreviation neighbor_cell := (neighbor_cell coordinates thin_dist).
Local Abbreviation neighbor_cells := (neighbor_cells coordinates thin_dist).
Local Abbreviation near := (near coordinates thin_dist).

Lemma elem_of_offsets d : d ∈ offsets ↔ d = -1 ∨ d = 0 ∨ d = 1.
Proof.
  unfold offsets. rewrite !elem_of_cons, elem_of_nil.
  split; [intros [?|[?|[?|[]]]] | intros [?|[?|?]]]; auto.
Qed.

Lemma elem_of_neighbor_cells p c :
  c ∈ neighbor_cells p ↔
  ∃ lat_offset lon_offset, lat_offset ∈ offsets ∧ lon_offset ∈ offsets ∧
                           c = neighbor_cell p lat_offset lon_offset.
Proof.
  unfold neighbor_cells. rewrite list_elem_of_bind. split.
  - intros (dy & (dx & Hc%list_elem_of_singleton & Hdx)%list_elem_of_bind & Hdy).
    by exists dy, dx.
  - intros (dy & dx & Hdy & Hdx & ->). exists dy. split; [|done].
    apply list_elem_of_bind. exists dx. split; [by left | done].
Qed.

Lemma grid_lon_range p : - 2 ^ 31 ≤ grid_lon p < 2 ^ 31.
Proof. apply int_wrap_range. Qed.

Lemma grid_lat_range p : - 2 ^ 31 ≤ grid_lat p < 2 ^ 31.
Proof. apply int_wrap_range. Qed.

Lemma neighbor_cells_coordinates p q :
  grid_cell q ∈ neighbor_cells p ↔
  ∃ lat_offset lon_offset, lat_offset ∈ offsets ∧ lon_offset ∈ offsets ∧
    grid_lon q = int_wrap (grid_lon p + lon_offset) ∧
    grid_lat q = int_wrap (grid_lat p + lat_offset).
Proof.
  rewrite elem_of_neighbor_cells. unfold neighbor_cell, grid_cell.
  split; intros (dy & dx & Hdy & Hdx & Hc); exists dy, dx;
    (split; [done|]; split; [done|]).
  - by apply cell_name_inj in Hc.
  - by destruct Hc as [-> ->].
Qed.

Lemma neighbor_cells_own p : grid_cell p ∈ neighbor_cells p.
Proof.
  apply neighbor_cells_coordinates. exists 0, 0.
  rewrite !elem_of_offsets.
  rewrite !int_wrap_same by apply int_wrap_range. auto.
Qed.

Lemma neighbor_cells_sym p q :
  grid_cell q ∈ neighbor_cells p → grid_cell p ∈ neighbor_cells q.
Proof.
  rewrite !neighbor_cells_coordinates.
  intros (dy & dx & Hdy & Hdx & Hlon & Hlat). exists (- dy), (- dx).
  rewrite elem_of_offsets in Hdy, Hdx.
  split; [apply elem_of_offsets; lia|]. split; [apply elem_of_offsets; lia|].
  rewrite Hlon, Hlat, !Z.add_opp_r.
  rewrite !int_wrap_back by apply int_wrap_range. done.
Qed.

Lemma near_cells p q :
  near p q ↔ (q < n)%nat ∧ grid_cell q ∈ neighbor_cells p.
Proof.
  split.
  - intros (c & points & Hc & Hg & Hq).
    apply (grid_point _ _ _ _ _ Hg) in Hq as [Hq <-]. done.
  - intros [Hq Hc].
    destruct (grid_own_cell coordinates thin_dist q Hq) as (points & Hg & Hin).
    by exists (grid_cell q), points.
Qed.
End Neighbours.

(** ** What a pass drops, and what it leaves *)

Section Dropping.
Context `{Double}.
Variable coordinates : list (double * double).
Variable thin_dist : double.
Variable distance_metric : string.
Variable R : double.

Local Abbreviation n := (nrow coordinates).
Local Abbreviation grid := (grid coordinates thin_dist).
Local Abbreviation grid_cell := (grid_cell coordinates thin_dist).
Local Abbreviation distance := (distance coordinates distance_metric R).
Local Abbreviation check_point := (check_point coordinates thin_dist distance_metric R).
Local Abbreviation check_cell := (check_cell coordinates thin_dist distance_metric R).
Local Abbreviation neighbor_cells := (neighbor_cells coordinates thin_dist).
Local Abbreviation thin_point := (thin_point coordinates thin_dist distance_metric R).
Local Abbreviation thin_cell := (thin_cell coordinates thin_dist distance_metric R).
Local Abbreviation trial_pass := (trial_pass coordinates thin_dist distance_metric R).
Local Abbreviation points_of_pass := (points_of_pass coordinates thin_dist).
Local Abbreviation near := (near coordinates thin_dist).
Local Abbreviation drops := (drops coordinates thin_dist distance_metric R).
Local Abbreviation settled := (settled coordinates thin_dist distance_metric R).

Lemma drops_cells p q :
  drops p q ↔
  q ≠ p ∧ (q < n)%nat ∧ grid_cell q ∈ neighbor_cells p ∧
  fle (distance p q) thin_dist = true.
Proof.
  unfold drops. rewrite near_cells.
  split; [intros (? & [? ?] & ?) | intros (? & ? & ? & ?)]; by split_and!.
Qed.

Lemma trial_pass_points grid_cells m :
  trial_pass grid_cells m = foldl thin_point m (points_of_pass grid_cells).
Proof. unfold points_of_pass. by rewrite foldl_bind. Qed.

(** The scan of [p1] drops nothing but what [p1] drops. *)
Lemma thin_point_dropped m p1 q :
  kept m q = true → kept (thin_point m p1) q = false →
  kept m p1 = true ∧ drops p1 q.
Proof.
  unfold thin_point. destruct (kept m p1) eqn:Hk; [|congruence].
  intros Hq Hq'. split; [done|]. revert q Hq Hq'.
  apply (foldl_invariant
           (λ a, ∀ q, kept m q = true → kept a q = false → drops p1 q));
    [|congruence].
  intros a c Hc Ha. unfold check_cell.
  destruct (grid !! c) as [points|] eqn:Hg; [|done].
  apply (foldl_invariant
           (λ a, ∀ q, kept m q = true → kept a q = false → drops p1 q));
    [|done].
  intros a' p2 Hp2 Ha' q Hq Hq'. unfold check_point in Hq'.
  destruct (bool_decide (p2 ≠ p1)) eqn:Hne; simpl in Hq'; [|by apply Ha'].
  apply bool_decide_eq_true in Hne.
  destruct (kept a' p2) eqn:Hk2; [|by apply Ha'].
  destruct (fle (distance p1 p2) thin_dist) eqn:Hle; [|by apply Ha'].
  destruct (decide (p2 = q)) as [<-|Hpq].
  - split; [done|]. split; [by exists c, points | done].
  - rewrite kept_insert_ne in Hq' by done. by apply Ha'.
Qed.

(** Every point a pass drops is dropped by a point kept at the start. *)
Lemma trial_pass_dropped grid_cells m q :
  kept m q = true → kept (trial_pass grid_cells m) q = false →
  ∃ p, kept m p = true ∧ drops p q.
Proof.
  rewrite trial_pass_points. revert q.
  apply (foldl_invariant
           (λ a, shrinks a m ∧
                 ∀ q, kept m q = true → kept a q = false →
                      ∃ p, kept m p = true ∧ drops p q)).
  - intros a p1 _ [Hs Ha]. split.
    + eapply shrinks_trans; [apply thin_point_shrinks | done].
    + intros q Hq Hq'. destruct (kept a q) eqn:Hqa; [|by apply Ha].
      destruct (thin_point_dropped a p1 q Hqa Hq') as [Hp1 Hd].
      exists p1. split; [by apply Hs | done].
  - split; [apply shrinks_refl | congruence].
Qed.

(** A loop seen with the items it has gone through. *)
Lemma foldl_visited {A B} (P : list B → A → Prop) (f : A → B → A) (l : list B) a :
  P [] a → (∀ pre b a, P pre a → P (pre ++ [b]) (f a b)) → P l (foldl f a l).
Proof.
  intros Ha Hstep.
  cut (∀ pre a, P pre a → P (pre ++ l) (foldl f a l)); [intros Hc; by apply (Hc [])|].
  induction l as [|b l IH]; intros pre a' Hpre; simpl.
  - by rewrite app_nil_r.
  - rewrite cons_middle, app_assoc. apply IH. by apply Hstep.
Qed.

Section Symmetric.
Hypothesis test_sym : ∀ p q, (p < n)%nat → (q < n)%nat →
  fle (distance p q) thin_dist = fle (distance q p) thin_dist.

Lemma drops_sym p q : (p < n)%nat → drops p q → drops q p.
Proof.
  rewrite !drops_cells. intros Hp (Hne & Hq & Hc & Hle).
  split_and!; [done | done | by apply neighbor_cells_sym |].
  by rewrite <-test_sym.
Qed.

(** With a symmetric test, a point that has scanned is not dropped later:
    every dropped point has, at the end, a kept point that drops it. *)
Lemma trial_pass_dominated grid_cells m q :
  length m = n →
  kept m q = true → kept (trial_pass grid_cells m) q = false →
  ∃ p, kept (trial_pass grid_cells m) p = true ∧ drops p q.
Proof.
  intros Hlen. rewrite trial_pass_points.
  intros Hq Hq'.
  cut (shrinks (foldl thin_point m (points_of_pass grid_cells)) m ∧
       (∀ p, p ∈ points_of_pass grid_cells →
             kept (foldl thin_point m (points_of_pass grid_cells)) p = true →
             ∀ q, drops p q →
                  kept (foldl thin_point m (points_of_pass grid_cells)) q = false) ∧
       (∀ q, kept m q = true →
             kept (foldl thin_point m (points_of_pass grid_cells)) q = false →
             ∃ p, p ∈ points_of_pass grid_cells ∧
                  kept (foldl thin_point m (points_of_pass grid_cells)) p = true ∧
                  drops p q)).
  { intros (_ & _ & Hdom). destruct (Hdom q Hq Hq') as (p & _ & ? & ?). eauto. }
  clear q Hq Hq'.
  apply (foldl_visited
           (λ visited a,
              shrinks a m ∧
              (∀ p, p ∈ visited → kept a p = true →
                    ∀ q, drops p q → kept a q = false) ∧
              (∀ q, kept m q = true → kept a q = false →
                    ∃ p, p ∈ visited ∧ kept a p = true ∧ drops p q))).
  { split_and!; [apply shrinks_refl | by intros p ?%not_elem_of_nil | congruence]. }
  intros visited p1 a (Hs & Hset & Hdom).
  pose proof (thin_point_shrinks coordinates thin_dist distance_metric R a p1)
    as Hs1.
  assert (∀ p, p ∈ visited → kept a p = true →
               kept (thin_point a p1) p = true) as Hstay.
  { intros p Hp Hpa. destruct (kept (thin_point a p1) p) eqn:E; [done|].
    destruct (thin_point_dropped a p1 p Hpa E) as [Hp1 Hd].
    apply drops_sym in Hd.
    - by rewrite (Hset p Hp Hpa p1 Hd) in Hp1.
    - apply kept_lt in Hp1. by rewrite (proj1 Hs), Hlen in Hp1. }
  split_and!.
  - by eapply shrinks_trans.
  - intros p [Hp | ->%list_elem_of_singleton]%elem_of_app Hp' q Hd.
    + eapply dropped_down; [done|]. eapply Hset; [done| |done]. by apply Hs1.
    + apply thin_point_drops; [by apply Hs1 | done].
  - intros q Hq Hq'. destruct (kept a q) eqn:Hqa.
    + destruct (thin_point_dropped a p1 q Hqa Hq') as [Hp1 Hd].
      exists p1. split_and!; [set_solver | | done].
      unfold thin_point. rewrite Hp1. by apply scan_self.
    + destruct (Hdom q Hq Hqa) as (p & Hp & Hpa & Hd).
      exists p. split_and!; [set_solver | by apply Hstay | done].
Qed.
End Symmetric.
End Dropping.

(** ** The grid holds every point once *)

Section Partition.
Context `{Double}.
Variable coordinates : list (double * double).
Variable thin_dist : double.

Local Abbreviation n := (nrow coordinates).
Local Abbreviation grid := (grid coordinates thin_dist).
Local Abbreviation grid_cell := (grid_cell coordinates thin_dist).
Local Abbreviation points_of_pass := (points_of_pass coordinates thin_dist).

Lemma push_back_flat (cells : gmap string (list nat)) c i :
  map_to_list (push_back cells c i) ≫= snd ≡ₚ (map_to_list cells ≫= snd) ++ [i].
Proof.
  unfold push_back. destruct (cells !! c) as [points|] eqn:Hc; simpl.
  - rewrite <-insert_delete_eq.
    rewrite map_to_list_insert by apply lookup_delete_eq.
    rewrite <-(map_to_list_delete cells c points Hc).
    rewrite !bind_cons. simpl. rewrite <-!app_assoc.
    apply Permutation_app_head, Permutation_app_comm.
  - rewrite map_to_list_insert by done. rewrite bind_cons. simpl.
    apply Permutation_cons_append.
Qed.

Lemma populate_flat k :
  map_to_list (populate coordinates thin_dist k) ≫= snd ≡ₚ seq 0 k.
Proof.
  induction k as [|k IH].
  - unfold populate. simpl. by rewrite map_to_list_empty.
  - unfold populate in *. rewrite seq_S, foldl_app. simpl.
    by rewrite push_back_flat, IH.
Qed.

Lemma keys_flat :
  ((map_to_list grid).*1 ≫= λ c, default [] (grid !! c))
  = map_to_list grid ≫= snd.
Proof.
  assert (∀ l : list (string * list nat),
            (∀ c points, (c, points) ∈ l → grid !! c = Some points) →
            (l.*1 ≫= λ c, default [] (grid !! c)) = l ≫= snd) as Hl.
  { induction l as [|[c points] l IH]; intros Hin; [done|].
    rewrite fmap_cons, !bind_cons. simpl.
    rewrite (Hin c points) by by left. simpl. f_equal.
    apply IH. intros c' points' ?. apply Hin. by right. }
  apply Hl. intros c points. apply elem_of_map_to_list.
Qed.

Lemma points_of_pass_all grid_cells :
  grid_cells ≡ₚ (map_to_list grid).*1 → points_of_pass grid_cells ≡ₚ seq 0 n.
Proof.
  intros Hperm. unfold points_of_pass. rewrite Hperm, keys_flat.
  apply populate_flat.
Qed.

Lemma length_bind_nonempty {A B} (f : A → list B) (l : list A) :
  (∀ a, a ∈ l → f a ≠ []) → (length l ≤ length (l ≫= f))%nat.
Proof.
  induction l as [|a l IH]; intros Hne; [done|].
  rewrite bind_cons, length_app. simpl.
  assert (length l ≤ length (l ≫= f))%nat by (apply IH; intros; apply Hne; by right).
  destruct (f a) eqn:E; [by destruct (Hne a (list_elem_of_here _ _))|simpl; lia].
Qed.

Lemma grid_size : (size grid ≤ n)%nat.
Proof.
  rewrite <-length_map_to_list.
  etransitivity; [apply (length_bind_nonempty snd)|].
  - intros [c points] Hin%elem_of_map_to_list. simpl.
    by apply grid_lookup_Some in Hin as [? _].
  - unfold grid. by rewrite populate_flat, length_seq.
Qed.
End Partition.

(** ** Properties of the masks a call returns *)

Section Further.
Context `{Double} `{StdLib}.
Variable coordinates : list (double * double).
Variable thin_dist : double.
Variable distance_metric : string.
Variable R : double.

Local Abbreviation n := (nrow coordinates).
Local Abbreviation grid := (grid coordinates thin_dist).
Local Abbreviation grid_lon := (grid_lon coordinates thin_dist).
Local Abbreviation grid_lat := (grid_lat coordinates thin_dist).
Local Abbreviation grid_cell := (grid_cell coordinates thin_dist).
Local Abbreviation neighbor_cells := (neighbor_cells coordinates thin_dist).
Local Abbreviation distance := (distance coordinates distance_metric R).
Local Abbreviation thin_point := (thin_point coordinates thin_dist distance_metric R).
Local Abbreviation trial_pass := (trial_pass coordinates thin_dist distance_metric R).
Local Abbreviation trial_cells := (trial_cells coordinates thin_dist).
Local Abbreviation trial_mask := (trial_mask coordinates thin_dist distance_metric R).
Local Abbreviation first_trial := (first_trial coordinates thin_dist distance_metric R).
Local Abbreviation points_of_pass := (points_of_pass coordinates thin_dist).
Local Abbreviation drops := (drops coordinates thin_dist distance_metric R).

Lemma keys_cover grid_cells c :
  grid_cells ≡ₚ (map_to_list grid).*1 → is_Some (grid !! c) → c ∈ grid_cells.
Proof.
  intros -> [points Hc]. apply list_elem_of_fmap. exists (c, points).
  split; [done | by apply elem_of_map_to_list].
Qed.

Lemma trial_cells_perm st : trial_cells st ≡ₚ (map_to_list grid).*1.
Proof. unfold trial_cells. by rewrite shuffle_perm, umap_keys_perm. Qed.

(** X1.  A pass over all the cells leaves a mask that no further pass
    changes, whatever cells the further pass goes through and in whatever
    order. *)
Theorem second_pass_changes_nothing grid_cells grid_cells' (m : mask) :
  length m = nrow coordinates →
  grid_cells ≡ₚ (map_to_list grid).*1 →
  trial_pass grid_cells' (trial_pass grid_cells m) = trial_pass grid_cells m.
Proof.
  intros Hlen Hperm. apply settled_trial_pass, trial_pass_settled; [done|].
  intros c. by apply keys_cover.
Qed.

(** X2.  After at least one trial, two distinct points kept by a returned
    mask, the second in one of the nine cells around the first, fail the
    test [distance <= thin_dist]. *)
Theorem survivors_respect_threshold trials all_trials seed :
  1 ≤ trials →
  ∃ masks,
    rounding_hashing_thinning
      coordinates thin_dist trials all_trials distance_metric R seed
    = Returns masks ∧
    Forall (λ m : mask,
              ∀ p1 p2, kept m p1 = true → kept m p2 = true → p2 ≠ p1 →
                       grid_cell p2 ∈ neighbor_cells p1 →
                       fle (distance p1 p2) thin_dist = false) masks.
Proof.
  intros Ht. eexists. split; [by apply thinning_with_trials|].
  assert (∀ p1 p2, kept (first_trial seed) p1 = true →
                   kept (first_trial seed) p2 = true → p2 ≠ p1 →
                   grid_cell p2 ∈ neighbor_cells p1 →
                   fle (distance p1 p2) thin_dist = false) as Hft.
  { intros p1 p2 Hk1 Hk2 Hne Hc.
    destruct (fle (distance p1 p2) thin_dist) eqn:Hle; [|done].
    rewrite (first_trial_settled coordinates thin_dist distance_metric R
               seed p1 p2) in Hk2; [done | done |].
    apply drops_cells. split_and!; [done | | done | done].
    apply kept_lt in Hk2. by rewrite first_trial_length in Hk2. }
  destruct all_trials; [by apply Forall_replicate | by repeat constructor].
Qed.

(** X3.  When all trials are asked for, the list has one mask per trial and
    every one of them is the mask of the first trial. *)
Theorem all_trials_repeat_first trials seed :
  rounding_hashing_thinning
    coordinates thin_dist trials true distance_metric R seed
  = Returns (replicate (Z.to_nat trials) (first_trial seed)).
Proof.
  destruct (decide (1 ≤ trials)) as [Ht|Ht].
  - by rewrite thinning_with_trials.
  - rewrite thinning_without_trial by lia.
    by replace (Z.to_nat trials) with 0%nat by lia.
Qed.

(** X4.  A pass drops a point only for another point, kept when the pass
    starts, that has it in its nine cells and within the threshold. *)
Theorem pass_drops_only_close_neighbours grid_cells (m : mask) q :
  kept m q = true → kept (trial_pass grid_cells m) q = false →
  ∃ p, kept m p = true ∧ p ≠ q ∧ (q < nrow coordinates)%nat ∧
       grid_cell q ∈ neighbor_cells p ∧
       fle (distance p q) thin_dist = true.
Proof.
  intros Hq Hq'.
  destruct (trial_pass_dropped coordinates thin_dist distance_metric R
              grid_cells m q Hq Hq') as (p & Hp & Hd).
  apply drops_cells in Hd as (Hne & Hlt & Hc & Hle).
  exists p. by split_and!.
Qed.

(** X5.  A point that no other point has both in its nine cells and within
    the threshold is kept by every mask a call returns. *)
Theorem isolated_point_kept trials all_trials seed q :
  (q < nrow coordinates)%nat →
  (∀ p, (p < nrow coordinates)%nat → p ≠ q →
        grid_cell q ∈ neighbor_cells p →
        fle (distance p q) thin_dist = false) →
  ∃ masks,
    rounding_hashing_thinning
      coordinates thin_dist trials all_trials distance_metric R seed
    = Returns masks ∧
    Forall (λ m : mask, kept m q = true) masks.
Proof.
  intros Hq Hiso.
  assert (kept (replicate n true) q = true) as Hq0.
  { rewrite kept_replicate_true. by apply bool_decide_eq_true. }
  assert (kept (first_trial seed) q = true) as Hq1.
  { destruct (kept (first_trial seed) q) eqn:E; [done|].
    destruct (trial_pass_dropped coordinates thin_dist distance_metric R
                _ _ q Hq0 E) as (p & Hp & Hd).
    apply drops_cells in Hd as (Hne & _ & Hc & Hle).
    rewrite kept_replicate_true in Hp. apply bool_decide_eq_true in Hp.
    rewrite Hiso in Hle by done. done. }
  destruct (decide (1 ≤ trials)) as [Ht|Ht].
  - eexists. split; [by apply thinning_with_trials|].
    destruct all_trials; [by apply Forall_replicate | by repeat constructor].
  - eexists. split; [apply thinning_without_trial; lia|].
    destruct all_trials; by repeat constructor.
Qed.

(** X6.  When the test [distance <= thin_dist] gives the same answer for a
    pair of points taken in either order, then after at least one trial
    every point that a returned mask has dropped has a point kept by that
    mask which has it in its nine cells and within the threshold. *)
Theorem dropped_point_has_kept_neighbour trials all_trials seed :
  (∀ p q, (p < nrow coordinates)%nat → (q < nrow coordinates)%nat →
          fle (distance p q) thin_dist = fle (distance q p) thin_dist) →
  1 ≤ trials →
  ∃ masks,
    rounding_hashing_thinning
      coordinates thin_dist trials all_trials distance_metric R seed
    = Returns masks ∧
    Forall (λ m : mask,
              ∀ q, (q < nrow coordinates)%nat → kept m q = false →
                   ∃ p, kept m p = true ∧ p ≠ q ∧
                        grid_cell q ∈ neighbor_cells p ∧
                        fle (distance p q) thin_dist = true) masks.
Proof.
  intros Hsym Ht. eexists. split; [by apply thinning_with_trials|].
  assert (∀ q, (q < n)%nat → kept (first_trial seed) q = false →
               ∃ p, kept (first_trial seed) p = true ∧ p ≠ q ∧
                    grid_cell q ∈ neighbor_cells p ∧
                    fle (distance p q) thin_dist = true) as Hft.
  { intros q Hq Hq'.
    assert (kept (replicate n true) q = true) as Hq0.
    { rewrite kept_replicate_true. by apply bool_decide_eq_true. }
    destruct (trial_pass_dominated coordinates thin_dist distance_metric R
                Hsym _ (replicate n true) q (length_replicate _ _) Hq0 Hq')
      as (p & Hp & Hd).
    apply drops_cells in Hd as (Hne & _ & Hc & Hle). exists p. by split_and!. }
  destruct all_trials; [by apply Forall_replicate | by repeat constructor].
Qed.

(** X7.  The buckets of the grid, put end to end, are the points
    [0 .. n-1], each once; so there are at most [n] cells. *)
Theorem grid_holds_every_point_once :
  map_to_list grid ≫= snd ≡ₚ seq 0 (nrow coordinates) ∧
  (size grid ≤ nrow coordinates)%nat.
Proof. split; [apply populate_flat | apply grid_size]. Qed.

(** X8.  In every trial each point gets its turn as [point1_idx] exactly
    once: the pass of the trial is the loop body [thin_point] run over a
    permutation of [0 .. n-1]. *)
Theorem every_point_scans_once (st : state) :
  points_of_pass (trial_cells st) ≡ₚ seq 0 (nrow coordinates) ∧
  trial_mask st
  = foldl thin_point (heap st !!! keep_points st)
      (points_of_pass (trial_cells st)).
Proof.
  split.
  - apply points_of_pass_all, trial_cells_perm.
  - apply trial_pass_points.
Qed.

(** X9.  Two cells have the same name only when they are the same cell:
    no two cells share a bucket of the grid. *)
Theorem cell_names_never_collide a b a' b' :
  cell_name a b = cell_name a' b' ↔ a = a' ∧ b = b'.
Proof. split; [apply cell_name_inj | by intros [-> ->]]. Qed.

(** X10.  The cells scanned for a point are the nine cells whose two
    numbers are those of the point's cell plus -1, 0 or 1, as [int]s.  The
    point's own cell is one of them, and when the cell of [q] is scanned
    for [p], the cell of [p] is scanned for [q]. *)
Theorem nine_cells_around p q :
  (grid_cell q ∈ neighbor_cells p ↔
   ∃ lat_offset lon_offset,
     lat_offset ∈ offsets ∧ lon_offset ∈ offsets ∧
     grid_lon q = int_wrap (grid_lon p + lon_offset) ∧
     grid_lat q = int_wrap (grid_lat p + lat_offset)) ∧
  length (neighbor_cells p) = 9%nat ∧
  grid_cell p ∈ neighbor_cells p ∧
  (grid_cell q ∈ neighbor_cells p → grid_cell p ∈ neighbor_cells q).
Proof.
  split_and!.
  - apply neighbor_cells_coordinates.
  - done.
  - apply neighbor_cells_own.
  - apply neighbor_cells_sym.
Qed.

(** X11.  The radius is read by the haversine distance only: under any
    other metric string two calls that differ in the radius alone return
    the same masks. *)
Theorem radius_unused_unless_haversine R' trials all_trials seed :
  distance_metric ≠ "haversine" →
  rounding_hashing_thinning
    coordinates thin_dist trials all_trials distance_metric R seed
  = rounding_hashing_thinning
      coordinates thin_dist trials all_trials distance_metric R' seed.
Proof.
  intros Hne. apply String.eqb_neq in Hne.
  unfold rounding_hashing_thinning, after, trial, improves, trial_mask,
    trial_pass, thin_cell, thin_point, check_cell, check_point, distance.
  rewrite Hne. done.
Qed.
End Further.

(** ** The further properties on concrete points *)

Lemma second_pass_changes_nothing_witness :
  length (replicate 4 true) = nrow Exact.four_points ∧
  (map_to_list (@grid Exact.exact_double Exact.four_points
                  (Exact.dec 1 (-1)))).*1
  ≡ₚ (map_to_list (@grid Exact.exact_double Exact.four_points
                     (Exact.dec 1 (-1)))).*1 ∧
  @trial_pass Exact.exact_double Exact.four_points (Exact.dec 1 (-1))
    "euclidean" (Exact.dec 6371 0) ["0_1"; "1113_1113"]
    (@trial_pass Exact.exact_double Exact.four_points (Exact.dec 1 (-1))
       "euclidean" (Exact.dec 6371 0)
       (map_to_list (@grid Exact.exact_double Exact.four_points
                       (Exact.dec 1 (-1)))).*1
       (replicate 4 true))
  = @trial_pass Exact.exact_double Exact.four_points (Exact.dec 1 (-1))
      "euclidean" (Exact.dec 6371 0)
      (map_to_list (@grid Exact.exact_double Exact.four_points
                      (Exact.dec 1 (-1)))).*1
      (replicate 4 true).
Proof.
  assert (length (replicate 4 true) = nrow Exact.four_points) as Hlen
    by reflexivity.
  split_and!; [exact Hlen | reflexivity |].
  exact (@second_pass_changes_nothing Exact.exact_double
           Exact.four_points (Exact.dec 1 (-1)) "euclidean" (Exact.dec 6371 0)
           _ ["0_1"; "1113_1113"] (replicate 4 true) Hlen
           (reflexivity _)).
Defined.

Lemma survivors_respect_threshold_witness :
  1 ≤ 2 ∧
  ∃ masks,
    @rounding_hashing_thinning Exact.exact_double Exact.exact_stdlib
      Exact.four_points (Exact.dec 1 (-1)) 2 true
      "euclidean" (Exact.dec 6371 0) 42
    = Returns masks ∧
    Forall (λ m : mask,
              ∀ p1 p2, kept m p1 = true → kept m p2 = true → p2 ≠ p1 →
                @grid_cell Exact.exact_double Exact.four_points
                  (Exact.dec 1 (-1)) p2
                ∈ @neighbor_cells Exact.exact_double Exact.four_points
                    (Exact.dec 1 (-1)) p1 →
                @fle Exact.exact_double
                  (@distance Exact.exact_double Exact.four_points "euclidean"
                     (Exact.dec 6371 0) p1 p2)
                  (Exact.dec 1 (-1)) = false) masks.
Proof.
  assert (1 ≤ 2) as Ht by lia.
  split; [exact Ht|].
  exact (@survivors_respect_threshold Exact.exact_double Exact.exact_stdlib
           Exact.four_points (Exact.dec 1 (-1)) "euclidean" (Exact.dec 6371 0)
           2 true 42 Ht).
Defined.

Lemma pass_drops_only_close_neighbours_witness :
  kept (replicate 4 true) 0 = true ∧
  kept (@trial_pass Exact.exact_double Exact.four_points (Exact.dec 1 (-1))
          "euclidean" (Exact.dec 6371 0)
          (map_to_list (@grid Exact.exact_double Exact.four_points
                          (Exact.dec 1 (-1)))).*1
          (replicate 4 true)) 0 = false ∧
  ∃ p, kept (replicate 4 true) p = true ∧ p ≠ 0%nat ∧
       (0 < nrow Exact.four_points)%nat ∧
       @grid_cell Exact.exact_double Exact.four_points (Exact.dec 1 (-1)) 0
       ∈ @neighbor_cells Exact.exact_double Exact.four_points
           (Exact.dec 1 (-1)) p ∧
       @fle Exact.exact_double
         (@distance Exact.exact_double Exact.four_points "euclidean"
            (Exact.dec 6371 0) p 0)
         (Exact.dec 1 (-1)) = true.
Proof.
  assert (kept (replicate 4 true) 0 = true) as Hq by reflexivity.
  assert (kept (@trial_pass Exact.exact_double Exact.four_points
                  (Exact.dec 1 (-1)) "euclidean" (Exact.dec 6371 0)
                  (map_to_list (@grid Exact.exact_double Exact.four_points
                                  (Exact.dec 1 (-1)))).*1
                  (replicate 4 true)) 0 = false) as Hq'
    by (vm_compute; reflexivity).
  split_and!; [exact Hq | exact Hq' |].
  exact (@pass_drops_only_close_neighbours Exact.exact_double
           Exact.four_points (Exact.dec 1 (-1)) "euclidean" (Exact.dec 6371 0)
           _ (replicate 4 true) 0%nat Hq Hq').
Defined.

(** The second of the two points is within the threshold of the first, yet
    not in its nine cells: it is kept. *)
Lemma isolated_point_kept_witness :
  (1 < nrow Exact.two_points)%nat ∧
  @fle Exact.exact_double
    (@distance Exact.exact_double Exact.two_points "euclidean"
       (Exact.dec 6371 0) 0 1)
    (Exact.dec 1 (-1)) = true ∧
  ∃ masks,
    @rounding_hashing_thinning Exact.exact_double Exact.exact_stdlib
      Exact.two_points (Exact.dec 1 (-1)) 2 true
      "euclidean" (Exact.dec 6371 0) 7
    = Returns masks ∧
    Forall (λ m : mask, kept m 1 = true) masks.
Proof.
  assert (1 < nrow Exact.two_points)%nat as Hq by (vm_compute; lia).
  assert (∀ p, (p < nrow Exact.two_points)%nat → p ≠ 1%nat →
               @grid_cell Exact.exact_double Exact.two_points
                 (Exact.dec 1 (-1)) 1
               ∈ @neighbor_cells Exact.exact_double Exact.two_points
                   (Exact.dec 1 (-1)) p →
               @fle Exact.exact_double
                 (@distance Exact.exact_double Exact.two_points "euclidean"
                    (Exact.dec 6371 0) p 1)
                 (Exact.dec 1 (-1)) = false) as Hiso.
  { intros p Hp Hne Hin. exfalso.
    unfold nrow in Hp. simpl in Hp.
    destruct p as [|[|p]]; [|by apply Hne|lia].
    apply (bool_decide_pack _) in Hin. vm_compute in Hin. exact Hin. }
  split_and!; [exact Hq | by vm_compute |].
  exact (@isolated_point_kept Exact.exact_double Exact.exact_stdlib
           Exact.two_points (Exact.dec 1 (-1)) "euclidean" (Exact.dec 6371 0)
           2 true 7 1%nat Hq Hiso).
Defined.

Lemma dropped_point_has_kept_neighbour_witness :
  (∀ p q, (p < nrow Exact.four_points)%nat → (q < nrow Exact.four_points)%nat →
          @fle Exact.exact_double
            (@distance Exact.exact_double Exact.four_points "euclidean"
               (Exact.dec 6371 0) p q)
            (Exact.dec 1 (-1))
          = @fle Exact.exact_double
              (@distance Exact.exact_double Exact.four_points "euclidean"
                 (Exact.dec 6371 0) q p)
              (Exact.dec 1 (-1))) ∧
  1 ≤ 1 ∧
  ∃ masks,
    @rounding_hashing_thinning Exact.exact_double Exact.exact_stdlib
      Exact.four_points (Exact.dec 1 (-1)) 1 false
      "euclidean" (Exact.dec 6371 0) 42
    = Returns masks ∧
    Forall (λ m : mask,
              ∀ q, (q < nrow Exact.four_points)%nat → kept m q = false →
                ∃ p, kept m p = true ∧ p ≠ q ∧
                  @grid_cell Exact.exact_double Exact.four_points
                    (Exact.dec 1 (-1)) q
                  ∈ @neighbor_cells Exact.exact_double Exact.four_points
                      (Exact.dec 1 (-1)) p ∧
                  @fle Exact.exact_double
                    (@distance Exact.exact_double Exact.four_points
                       "euclidean" (Exact.dec 6371 0) p q)
                    (Exact.dec 1 (-1)) = true) masks.
Proof.
  assert (∀ p q, (p < nrow Exact.four_points)%nat →
                 (q < nrow Exact.four_points)%nat →
                 @fle Exact.exact_double
                   (@distance Exact.exact_double Exact.four_points "euclidean"
                      (Exact.dec 6371 0) p q)
                   (Exact.dec 1 (-1))
                 = @fle Exact.exact_double
                     (@distance Exact.exact_double Exact.four_points
                        "euclidean" (Exact.dec 6371 0) q p)
                     (Exact.dec 1 (-1))) as Hsym.
  { intros p q Hp Hq. unfold nrow in Hp, Hq. simpl in Hp, Hq.
    destruct p as [|[|[|[|p]]]]; [| | | |lia];
      (destruct q as [|[|[|[|q]]]]; [| | | |lia]);
      vm_compute; reflexivity. }
  assert (1 ≤ 1) as Ht by lia.
  split_and!; [exact Hsym | exact Ht |].
  exact (@dropped_point_has_kept_neighbour Exact.exact_double
           Exact.exact_stdlib Exact.four_points (Exact.dec 1 (-1))
           "euclidean" (Exact.dec 6371 0) 1 false 42 Hsym Ht).
Defined.

Lemma radius_unused_unless_haversine_witness :
  "euclidean" ≠ "haversine" ∧
  @rounding_hashing_thinning Exact.exact_double Exact.exact_stdlib
    Exact.four_points (Exact.dec 1 (-1)) 2 true
    "euclidean" (Exact.dec 6371 0) 42
  = @rounding_hashing_thinning Exact.exact_double Exact.exact_stdlib
      Exact.four_points (Exact.dec 1 (-1)) 2 true
      "euclidean" (Exact.dec 1 0) 42.
Proof.
  assert ("euclidean" ≠ "haversine") as Hne by discriminate.
  split; [exact Hne|].
  exact (@radius_unused_unless_haversine Exact.exact_double Exact.exact_stdlib
           Exact.four_points (Exact.dec 1 (-1)) "euclidean" (Exact.dec 6371 0)
           (Exact.dec 1 0) 2 true 42 Hne).
Defined.
